(** * The virtio RDMA provider: data path of [providers/virtio/virtio_rdma.c]

    A shallow embedding of the translation tables, the send/receive posting
    path and the completion-queue poller, with the properties of the
    design document stated over it.

    Conventions.
    - C integers are [Z]; a conversion to [uint8_t] or [uint32_t] is written
      out with [u8] and [u32].
    - A linked list of work requests ([wr->next]) is a Rocq list; a pointer
      to a work request is the suffix of the list that starts there, and
      [NULL] is [[]].
    - A buffer-pool entry travels with the contents of its slot: whoever
      holds the entry (free list, ring, or a local variable) holds the slot.
    - The enumerators, sizes and errno values come from headers that are not
      part of the translation unit ([infiniband/verbs.h],
      [virtio_rdma_abi.h], [errno.h]); they are the fields of the class
      [Headers], and every function is parametrised by it. *)

From Stdlib Require Import ZArith List Bool Lia.
From Stdlib Require Strings.Byte.
From Stdlib Require Import Permutation.
From Stdlib Require Strings.String Strings.Ascii.
Import ListNotations.
Local Open Scope Z_scope.

Set Implicit Arguments.

(* ------------------------------------------------------------------ *)
(** ** Integer conversions *)

Definition u8 (x : Z) : Z := x mod 256.
Definition u32 (x : Z) : Z := x mod 2 ^ 32.

Definition is_u8 (x : Z) : Prop := 0 <= x < 256.

(* ------------------------------------------------------------------ *)
(** ** Constants of the headers *)

Class Headers : Type := {
  (* enum virtio_ib_wc_status *)
  VIRTIO_IB_WC_SUCCESS : Z;
  VIRTIO_IB_WC_LOC_LEN_ERR : Z;
  VIRTIO_IB_WC_LOC_QP_OP_ERR : Z;
  VIRTIO_IB_WC_LOC_PROT_ERR : Z;
  VIRTIO_IB_WC_WR_FLUSH_ERR : Z;
  VIRTIO_IB_WC_BAD_RESP_ERR : Z;
  VIRTIO_IB_WC_LOC_ACCESS_ERR : Z;
  VIRTIO_IB_WC_REM_INV_REQ_ERR : Z;
  VIRTIO_IB_WC_REM_ACCESS_ERR : Z;
  VIRTIO_IB_WC_REM_OP_ERR : Z;
  VIRTIO_IB_WC_RETRY_EXC_ERR : Z;
  VIRTIO_IB_WC_RNR_RETRY_EXC_ERR : Z;
  VIRTIO_IB_WC_REM_ABORT_ERR : Z;
  VIRTIO_IB_WC_FATAL_ERR : Z;
  VIRTIO_IB_WC_RESP_TIMEOUT_ERR : Z;
  VIRTIO_IB_WC_GENERAL_ERR : Z;
  (* enum ibv_wc_status *)
  IBV_WC_SUCCESS : Z;
  IBV_WC_LOC_LEN_ERR : Z;
  IBV_WC_LOC_QP_OP_ERR : Z;
  IBV_WC_LOC_PROT_ERR : Z;
  IBV_WC_WR_FLUSH_ERR : Z;
  IBV_WC_BAD_RESP_ERR : Z;
  IBV_WC_LOC_ACCESS_ERR : Z;
  IBV_WC_REM_INV_REQ_ERR : Z;
  IBV_WC_REM_ACCESS_ERR : Z;
  IBV_WC_REM_OP_ERR : Z;
  IBV_WC_RETRY_EXC_ERR : Z;
  IBV_WC_RNR_RETRY_EXC_ERR : Z;
  IBV_WC_REM_ABORT_ERR : Z;
  IBV_WC_FATAL_ERR : Z;
  IBV_WC_RESP_TIMEOUT_ERR : Z;
  IBV_WC_GENERAL_ERR : Z;
  (* enum virtio_ib_wc_opcode and enum ibv_wc_opcode *)
  VIRTIO_IB_WC_SEND : Z;
  VIRTIO_IB_WC_RDMA_WRITE : Z;
  VIRTIO_IB_WC_RDMA_READ : Z;
  VIRTIO_IB_WC_RECV : Z;
  VIRTIO_IB_WC_RECV_RDMA_WITH_IMM : Z;
  IBV_WC_SEND : Z;
  IBV_WC_RDMA_WRITE : Z;
  IBV_WC_RDMA_READ : Z;
  IBV_WC_RECV : Z;
  IBV_WC_RECV_RDMA_WITH_IMM : Z;
  (* enum ibv_wr_opcode and the wire work-request opcodes *)
  IBV_WR_RDMA_WRITE : Z;
  IBV_WR_RDMA_WRITE_WITH_IMM : Z;
  IBV_WR_SEND : Z;
  IBV_WR_SEND_WITH_IMM : Z;
  IBV_WR_RDMA_READ : Z;
  VIRTIO_IB_WR_RDMA_WRITE : Z;
  VIRTIO_IB_WR_RDMA_WRITE_WITH_IMM : Z;
  VIRTIO_IB_WR_SEND : Z;
  VIRTIO_IB_WR_SEND_WITH_IMM : Z;
  VIRTIO_IB_WR_RDMA_READ : Z;
  (* completion flags *)
  VIRTIO_IB_WC_GRH : Z;
  VIRTIO_IB_WC_WITH_IMM : Z;
  IBV_WC_GRH : Z;
  IBV_WC_WITH_IMM : Z;
  (* send flags *)
  IBV_SEND_FENCE : Z;
  IBV_SEND_SIGNALED : Z;
  IBV_SEND_SOLICITED : Z;
  IBV_SEND_INLINE : Z;
  VIRTIO_IB_SEND_FENCE : Z;
  VIRTIO_IB_SEND_SIGNALED : Z;
  VIRTIO_IB_SEND_SOLICITED : Z;
  VIRTIO_IB_SEND_INLINE : Z;
  (* enum ibv_qp_type *)
  IBV_QPT_RC : Z;
  IBV_QPT_UD : Z;
  (* errno.h *)
  ENOMEM : Z;
  EOPNOTSUPP : Z;
  EINVAL : Z;
  (* sizeof of the wire records *)
  sizeof_sq_req : Z;
  sizeof_rq_req : Z;
  sizeof_cq_req : Z;
  sizeof_sge : Z
}.

(** One assignment of the constants, used to run the model on concrete
    inputs: the generic enumerators as libibverbs publishes them, the Linux
    errno values, the wire enumerators numbered in the order of their case
    labels, and sample record sizes. *)
Definition sample_headers : Headers := {|
  VIRTIO_IB_WC_SUCCESS := 0;
  VIRTIO_IB_WC_LOC_LEN_ERR := 1;
  VIRTIO_IB_WC_LOC_QP_OP_ERR := 2;
  VIRTIO_IB_WC_LOC_PROT_ERR := 3;
  VIRTIO_IB_WC_WR_FLUSH_ERR := 4;
  VIRTIO_IB_WC_BAD_RESP_ERR := 5;
  VIRTIO_IB_WC_LOC_ACCESS_ERR := 6;
  VIRTIO_IB_WC_REM_INV_REQ_ERR := 7;
  VIRTIO_IB_WC_REM_ACCESS_ERR := 8;
  VIRTIO_IB_WC_REM_OP_ERR := 9;
  VIRTIO_IB_WC_RETRY_EXC_ERR := 10;
  VIRTIO_IB_WC_RNR_RETRY_EXC_ERR := 11;
  VIRTIO_IB_WC_REM_ABORT_ERR := 12;
  VIRTIO_IB_WC_FATAL_ERR := 13;
  VIRTIO_IB_WC_RESP_TIMEOUT_ERR := 14;
  VIRTIO_IB_WC_GENERAL_ERR := 15;
  IBV_WC_SUCCESS := 0;
  IBV_WC_LOC_LEN_ERR := 1;
  IBV_WC_LOC_QP_OP_ERR := 2;
  IBV_WC_LOC_PROT_ERR := 4;
  IBV_WC_WR_FLUSH_ERR := 5;
  IBV_WC_BAD_RESP_ERR := 7;
  IBV_WC_LOC_ACCESS_ERR := 8;
  IBV_WC_REM_INV_REQ_ERR := 9;
  IBV_WC_REM_ACCESS_ERR := 10;
  IBV_WC_REM_OP_ERR := 11;
  IBV_WC_RETRY_EXC_ERR := 12;
  IBV_WC_RNR_RETRY_EXC_ERR := 13;
  IBV_WC_REM_ABORT_ERR := 16;
  IBV_WC_FATAL_ERR := 19;
  IBV_WC_RESP_TIMEOUT_ERR := 20;
  IBV_WC_GENERAL_ERR := 21;
  VIRTIO_IB_WC_SEND := 0;
  VIRTIO_IB_WC_RDMA_WRITE := 1;
  VIRTIO_IB_WC_RDMA_READ := 2;
  VIRTIO_IB_WC_RECV := 3;
  VIRTIO_IB_WC_RECV_RDMA_WITH_IMM := 4;
  IBV_WC_SEND := 0;
  IBV_WC_RDMA_WRITE := 1;
  IBV_WC_RDMA_READ := 2;
  IBV_WC_RECV := 128;
  IBV_WC_RECV_RDMA_WITH_IMM := 129;
  IBV_WR_RDMA_WRITE := 0;
  IBV_WR_RDMA_WRITE_WITH_IMM := 1;
  IBV_WR_SEND := 2;
  IBV_WR_SEND_WITH_IMM := 3;
  IBV_WR_RDMA_READ := 4;
  VIRTIO_IB_WR_RDMA_WRITE := 0;
  VIRTIO_IB_WR_RDMA_WRITE_WITH_IMM := 1;
  VIRTIO_IB_WR_SEND := 2;
  VIRTIO_IB_WR_SEND_WITH_IMM := 3;
  VIRTIO_IB_WR_RDMA_READ := 4;
  VIRTIO_IB_WC_GRH := 1;
  VIRTIO_IB_WC_WITH_IMM := 2;
  IBV_WC_GRH := 1;
  IBV_WC_WITH_IMM := 2;
  IBV_SEND_FENCE := 1;
  IBV_SEND_SIGNALED := 2;
  IBV_SEND_SOLICITED := 4;
  IBV_SEND_INLINE := 8;
  VIRTIO_IB_SEND_FENCE := 1;
  VIRTIO_IB_SEND_SIGNALED := 2;
  VIRTIO_IB_SEND_SOLICITED := 4;
  VIRTIO_IB_SEND_INLINE := 8;
  IBV_QPT_RC := 2;
  IBV_QPT_UD := 4;
  ENOMEM := 12;
  EOPNOTSUPP := 95;
  EINVAL := 22;
  sizeof_sq_req := 48;
  sizeof_rq_req := 16;
  sizeof_cq_req := 40;
  sizeof_sge := 16
|}.

(* ------------------------------------------------------------------ *)
(** ** Translation tables *)

Section Translation.
Context {H : Headers}.

(** A C [switch] whose every case returns: the first label equal to the
    scrutinee selects the value, which is narrowed to the [uint8_t] return
    type; falling out of the switch reaches [return -1]. *)
Fixpoint switch_u8 (cases : list (Z * Z)) (x : Z) : Z :=
  match cases with
  | [] => u8 (-1)
  | (label, value) :: rest =>
      if x =? label then u8 value else switch_u8 rest x
  end.

Definition ib_status_cases : list (Z * Z) :=
  [ (VIRTIO_IB_WC_SUCCESS, IBV_WC_SUCCESS);
    (VIRTIO_IB_WC_LOC_LEN_ERR, IBV_WC_LOC_LEN_ERR);
    (VIRTIO_IB_WC_LOC_QP_OP_ERR, IBV_WC_LOC_QP_OP_ERR);
    (VIRTIO_IB_WC_LOC_PROT_ERR, IBV_WC_LOC_PROT_ERR);
    (VIRTIO_IB_WC_WR_FLUSH_ERR, IBV_WC_WR_FLUSH_ERR);
    (VIRTIO_IB_WC_BAD_RESP_ERR, IBV_WC_BAD_RESP_ERR);
    (VIRTIO_IB_WC_LOC_ACCESS_ERR, IBV_WC_LOC_ACCESS_ERR);
    (VIRTIO_IB_WC_REM_INV_REQ_ERR, IBV_WC_REM_INV_REQ_ERR);
    (VIRTIO_IB_WC_REM_ACCESS_ERR, IBV_WC_REM_ACCESS_ERR);
    (VIRTIO_IB_WC_REM_OP_ERR, IBV_WC_REM_OP_ERR);
    (VIRTIO_IB_WC_RETRY_EXC_ERR, IBV_WC_RETRY_EXC_ERR);
    (VIRTIO_IB_WC_RNR_RETRY_EXC_ERR, IBV_WC_RNR_RETRY_EXC_ERR);
    (VIRTIO_IB_WC_REM_ABORT_ERR, IBV_WC_REM_ABORT_ERR);
    (VIRTIO_IB_WC_FATAL_ERR, IBV_WC_FATAL_ERR);
    (VIRTIO_IB_WC_RESP_TIMEOUT_ERR, IBV_WC_RESP_TIMEOUT_ERR);
    (VIRTIO_IB_WC_GENERAL_ERR, IBV_WC_GENERAL_ERR) ].

Definition ib_wc_opcode_cases : list (Z * Z) :=
  [ (VIRTIO_IB_WC_SEND, IBV_WC_SEND);
    (VIRTIO_IB_WC_RDMA_WRITE, IBV_WC_RDMA_WRITE);
    (VIRTIO_IB_WC_RDMA_READ, IBV_WC_RDMA_READ);
    (VIRTIO_IB_WC_RECV, IBV_WC_RECV);
    (VIRTIO_IB_WC_RECV_RDMA_WITH_IMM, IBV_WC_RECV_RDMA_WITH_IMM) ].

Definition virtio_wr_opcode_cases : list (Z * Z) :=
  [ (IBV_WR_RDMA_WRITE, VIRTIO_IB_WR_RDMA_WRITE);
    (IBV_WR_RDMA_WRITE_WITH_IMM, VIRTIO_IB_WR_RDMA_WRITE_WITH_IMM);
    (IBV_WR_SEND, VIRTIO_IB_WR_SEND);
    (IBV_WR_SEND_WITH_IMM, VIRTIO_IB_WR_SEND_WITH_IMM);
    (IBV_WR_RDMA_READ, VIRTIO_IB_WR_RDMA_READ) ].

Definition ib_wc_flags_cases : list (Z * Z) :=
  [ (VIRTIO_IB_WC_GRH, IBV_WC_GRH);
    (VIRTIO_IB_WC_WITH_IMM, IBV_WC_WITH_IMM) ].

Definition virtio_send_flags_cases : list (Z * Z) :=
  [ (IBV_SEND_FENCE, VIRTIO_IB_SEND_FENCE);
    (IBV_SEND_SIGNALED, VIRTIO_IB_SEND_SIGNALED);
    (IBV_SEND_SOLICITED, VIRTIO_IB_SEND_SOLICITED);
    (IBV_SEND_INLINE, VIRTIO_IB_SEND_INLINE) ].

(** The five translation functions.  Each takes a [uint8_t]: the argument
    is converted on entry, as the call does. *)
Definition to_ib_status (status : Z) : Z :=
  switch_u8 ib_status_cases (u8 status).

Definition to_ib_wc_opcode (opcode : Z) : Z :=
  switch_u8 ib_wc_opcode_cases (u8 opcode).

Definition to_virtio_wr_opcode (opcode : Z) : Z :=
  switch_u8 virtio_wr_opcode_cases (u8 opcode).

Definition to_ib_wc_flags (flags : Z) : Z :=
  switch_u8 ib_wc_flags_cases (u8 flags).

Definition to_virtio_send_flags (flags : Z) : Z :=
  switch_u8 virtio_send_flags_cases (u8 flags).

End Translation.

(* ------------------------------------------------------------------ *)
(** ** Records of the generic interface and of the wire format *)

(** [struct ibv_sge]; the wire descriptor [struct virtio_rdma_sge] has the
    same layout, so that the descriptor array is copied byte for byte. *)
Record ibv_sge : Type := {
  sge_addr : Z;
  sge_length : Z;
  sge_lkey : Z
}.

(** [struct virtio_rdma_ah] *)
Record virtio_rdma_ah : Type := { ah_num : Z }.

(** [struct ibv_send_wr] without its [next] field: a batch is the list of
    its requests.  The members [wr.rdma] and [wr.ud] of the addressing
    union are kept as separate fields. *)
Record ibv_send_wr : Type := {
  swr_id : Z;
  swr_sg_list : list ibv_sge;
  swr_opcode : Z;
  swr_send_flags : Z;
  swr_imm_data : Z;
  swr_rdma_remote_addr : Z;
  swr_rdma_rkey : Z;
  swr_ud_ah : virtio_rdma_ah;
  swr_ud_remote_qpn : Z;
  swr_ud_remote_qkey : Z
}.

(** [wr->num_sge] counts the elements of [wr->sg_list]. *)
Definition swr_num_sge (wr : ibv_send_wr) : Z :=
  Z.of_nat (length (swr_sg_list wr)).

(** [struct ibv_recv_wr] *)
Record ibv_recv_wr : Type := {
  rwr_id : Z;
  rwr_sg_list : list ibv_sge
}.

Definition rwr_num_sge (wr : ibv_recv_wr) : Z :=
  Z.of_nat (length (rwr_sg_list wr)).

(** [struct virtio_rdma_sq_req]: the header fields, the addressing members
    [ud] and [rdma], and the two trailing regions. *)
Record virtio_rdma_sq_req : Type := {
  sq_wr_id : Z;
  sq_num_sge : Z;
  sq_send_flags : Z;
  sq_opcode : Z;
  sq_imm_data : Z;
  sq_ud_remote_qpn : Z;
  sq_ud_remote_qkey : Z;
  sq_ud_ah : Z;
  sq_rdma_remote_addr : Z;
  sq_rdma_rkey : Z;
  sq_inline_len : Z;
  sq_inline_data : list Byte.byte;
  sq_sg_list : list ibv_sge
}.

(** [struct virtio_rdma_rq_req] *)
Record virtio_rdma_rq_req : Type := {
  rq_wr_id : Z;
  rq_num_sge : Z;
  rq_sg_list : list ibv_sge
}.

(** [struct virtio_rdma_cq_req] *)
Record virtio_rdma_cq_req : Type := {
  cq_wr_id : Z;
  cq_status : Z;
  cq_opcode : Z;
  cq_vendor_err : Z;
  cq_byte_len : Z;
  cq_imm_data : Z;
  cq_src_qp : Z;
  cq_wc_flags : Z
}.

(** [struct ibv_wc], the fields the poller fills. *)
Record ibv_wc : Type := {
  wc_wr_id : Z;
  wc_status : Z;
  wc_opcode : Z;
  wc_vendor_err : Z;
  wc_byte_len : Z;
  wc_imm_data : Z;
  wc_src_qp : Z;
  wc_wc_flags : Z;
  wc_pkey_index : Z
}.

Definition zero_sq_req : virtio_rdma_sq_req :=
  {| sq_wr_id := 0; sq_num_sge := 0; sq_send_flags := 0; sq_opcode := 0;
     sq_imm_data := 0; sq_ud_remote_qpn := 0; sq_ud_remote_qkey := 0;
     sq_ud_ah := 0; sq_rdma_remote_addr := 0; sq_rdma_rkey := 0;
     sq_inline_len := 0; sq_inline_data := []; sq_sg_list := [] |}.

Definition zero_rq_req : virtio_rdma_rq_req :=
  {| rq_wr_id := 0; rq_num_sge := 0; rq_sg_list := [] |}.

Definition zero_cq_req : virtio_rdma_cq_req :=
  {| cq_wr_id := 0; cq_status := 0; cq_opcode := 0; cq_vendor_err := 0;
     cq_byte_len := 0; cq_imm_data := 0; cq_src_qp := 0; cq_wc_flags := 0 |}.

(* ------------------------------------------------------------------ *)
(** ** The shared ring and its buffer pool ([virtio.h]) *)

Section Vring.
Variable A : Type.

(** [struct virtio_rdma_buf_pool_entry]: the slot index, the slot contents
    behind [buf], and the slot size [len]. *)
Record virtio_rdma_buf_pool_entry : Type := {
  index : nat;
  buf : A;
  len : Z
}.

(** [struct virtio_rdma_vring]: the free-list ring, the descriptors
    published to the backend with the length given to [vring_add_one]
    (oldest first), the descriptors the backend has returned and the
    driver has not taken yet (oldest first), and whether a doorbell word
    was negotiated ([doorbell != NULL]). *)
Record virtio_rdma_vring : Type := {
  flist : list virtio_rdma_buf_pool_entry;
  avail : list (virtio_rdma_buf_pool_entry * Z);
  used : list virtio_rdma_buf_pool_entry;
  doorbell : bool
}.

(** Modelled from the spec: [vring_init_pool] of [virtio.h], which is not
    among the sources.  It carves [n] slots of [size] bytes and seeds the
    free-list ring with all indices; nothing is published yet. *)
Definition vring_init_pool (init : A) (db : bool) (n : nat) (size : Z)
  : virtio_rdma_vring :=
  {| flist := map (fun i => {| index := i; buf := init; len := size |}) (seq 0 n);
     avail := [];
     used := [];
     doorbell := db |}.

(** Modelled from the spec: [vring_get_one] of [virtio.h].  Non-blocking;
    returns the next descriptor the backend has completed, or [NULL]. *)
Definition vring_get_one (r : virtio_rdma_vring)
  : option virtio_rdma_buf_pool_entry * virtio_rdma_vring :=
  match used r with
  | [] => (None, r)
  | e :: rest =>
      (Some e, {| flist := flist r; avail := avail r; used := rest;
                  doorbell := doorbell r |})
  end.

(** Modelled from the spec: [vring_add_one] of [virtio.h].  Writes the
    descriptor of the entry with the given length into the ring and
    advances the producer index. *)
Definition vring_add_one (r : virtio_rdma_vring)
  (e : virtio_rdma_buf_pool_entry) (length : Z) : virtio_rdma_vring :=
  {| flist := flist r; avail := avail r ++ [(e, length)]; used := used r;
     doorbell := doorbell r |}.

(** Modelled from the spec: [vring_flist_pop] of [virtio.h].  Takes an
    entry from the free-list ring, [NULL] when it is empty. *)
Definition vring_flist_pop (r : virtio_rdma_vring)
  : option virtio_rdma_buf_pool_entry * virtio_rdma_vring :=
  match flist r with
  | [] => (None, r)
  | e :: rest =>
      (Some e, {| flist := rest; avail := avail r; used := used r;
                  doorbell := doorbell r |})
  end.

(** Modelled from the spec: [vring_flist_push] of [virtio.h].  Gives an
    entry back to the free-list ring. *)
Definition vring_flist_push (r : virtio_rdma_vring)
  (e : virtio_rdma_buf_pool_entry) : virtio_rdma_vring :=
  {| flist := flist r ++ [e]; avail := avail r; used := used r;
     doorbell := doorbell r |}.

(** The backend, which is outside the driver: it takes the oldest
    published descriptor, rewrites the slot, and returns it as used. *)
Definition backend_complete (f : A -> A) (r : virtio_rdma_vring)
  : virtio_rdma_vring :=
  match avail r with
  | [] => r
  | (e, _) :: rest =>
      {| flist := flist r; avail := rest;
         used := used r ++ [{| index := index e; buf := f (buf e); len := len e |}];
         doorbell := doorbell r |}
  end.

(** The reclaim loop of the posting functions:
    [while ((buf_entry = vring_get_one(q)) != NULL) vring_flist_push(q, buf_entry);]
    The fuel is the number of iterations allowed. *)
Fixpoint reclaim_loop (fuel : nat) (r : virtio_rdma_vring) : virtio_rdma_vring :=
  match fuel with
  | O => r
  | S fuel' =>
      match vring_get_one r with
      | (None, r') => r'
      | (Some buf_entry, r') => reclaim_loop fuel' (vring_flist_push r' buf_entry)
      end
  end.

(** The driver holds the lock and the backend is not modelled as running
    during the call, so the loop ends after one iteration per used
    descriptor and a last call that returns [NULL]. *)
Definition reclaim (r : virtio_rdma_vring) : virtio_rdma_vring :=
  reclaim_loop (S (length (used r))) r.

(** Ownership counts of a pool. *)
Definition free_count (r : virtio_rdma_vring) : nat := length (flist r).
Definition posted_count (r : virtio_rdma_vring) : nat :=
  length (avail r) + length (used r).

(** Entries owned by the free list or by the ring.  Between two calls no
    entry is held by the driver itself, so this is the whole pool as long
    as none is lost. *)
Definition pool_total (r : virtio_rdma_vring) : nat :=
  free_count r + posted_count r.

End Vring.

Arguments vring_init_pool {A}.
Arguments backend_complete {A}.

(* ------------------------------------------------------------------ *)
(** ** Queue pairs, completion queues and what the backend observes *)

(** [struct virtio_rdma_qp] *)
Record virtio_rdma_qp : Type := {
  qp_type : Z;
  qpn : Z;
  num_sq_sge : Z;
  num_rq_sge : Z;
  sq : virtio_rdma_vring virtio_rdma_sq_req;
  rq : virtio_rdma_vring virtio_rdma_rq_req
}.

(** [struct virtio_rdma_cq] *)
Record virtio_rdma_cq : Type := {
  num_cqe : nat;
  vring : virtio_rdma_vring virtio_rdma_cq_req
}.

(** Notifications sent to the backend: a write to the doorbell word
    ([vring_notify]) or the null work-queue command of [slow_doorbell];
    the flag tells the send queue from the receive queue. *)
Inductive event : Type :=
  | Ev_vring_notify (send : bool)
  | Ev_slow_doorbell (send : bool).

Definition set_sq (qp : virtio_rdma_qp)
  (r : virtio_rdma_vring virtio_rdma_sq_req) : virtio_rdma_qp :=
  {| qp_type := qp_type qp; qpn := qpn qp; num_sq_sge := num_sq_sge qp;
     num_rq_sge := num_rq_sge qp; sq := r; rq := rq qp |}.

Definition set_rq (qp : virtio_rdma_qp)
  (r : virtio_rdma_vring virtio_rdma_rq_req) : virtio_rdma_qp :=
  {| qp_type := qp_type qp; qpn := qpn qp; num_sq_sge := num_sq_sge qp;
     num_rq_sge := num_rq_sge qp; sq := sq qp; rq := r |}.

Definition set_buf {A : Type} (e : virtio_rdma_buf_pool_entry A) (b : A)
  : virtio_rdma_buf_pool_entry A :=
  {| index := index e; buf := b; len := len e |}.

(** Field updates of the send wire record. *)
Definition set_sq_header (req : virtio_rdma_sq_req)
  (num_sge send_flags opcode wr_id imm_data : Z) : virtio_rdma_sq_req :=
  {| sq_wr_id := wr_id; sq_num_sge := num_sge; sq_send_flags := send_flags;
     sq_opcode := opcode; sq_imm_data := imm_data;
     sq_ud_remote_qpn := sq_ud_remote_qpn req;
     sq_ud_remote_qkey := sq_ud_remote_qkey req; sq_ud_ah := sq_ud_ah req;
     sq_rdma_remote_addr := sq_rdma_remote_addr req;
     sq_rdma_rkey := sq_rdma_rkey req; sq_inline_len := sq_inline_len req;
     sq_inline_data := sq_inline_data req; sq_sg_list := sq_sg_list req |}.

Definition set_sq_ud (req : virtio_rdma_sq_req) (remote_qpn remote_qkey ah : Z)
  : virtio_rdma_sq_req :=
  {| sq_wr_id := sq_wr_id req; sq_num_sge := sq_num_sge req;
     sq_send_flags := sq_send_flags req; sq_opcode := sq_opcode req;
     sq_imm_data := sq_imm_data req;
     sq_ud_remote_qpn := remote_qpn; sq_ud_remote_qkey := remote_qkey;
     sq_ud_ah := ah;
     sq_rdma_remote_addr := sq_rdma_remote_addr req;
     sq_rdma_rkey := sq_rdma_rkey req; sq_inline_len := sq_inline_len req;
     sq_inline_data := sq_inline_data req; sq_sg_list := sq_sg_list req |}.

Definition set_sq_rdma (req : virtio_rdma_sq_req) (remote_addr rkey : Z)
  : virtio_rdma_sq_req :=
  {| sq_wr_id := sq_wr_id req; sq_num_sge := sq_num_sge req;
     sq_send_flags := sq_send_flags req; sq_opcode := sq_opcode req;
     sq_imm_data := sq_imm_data req;
     sq_ud_remote_qpn := sq_ud_remote_qpn req;
     sq_ud_remote_qkey := sq_ud_remote_qkey req; sq_ud_ah := sq_ud_ah req;
     sq_rdma_remote_addr := remote_addr; sq_rdma_rkey := rkey;
     sq_inline_len := sq_inline_len req;
     sq_inline_data := sq_inline_data req; sq_sg_list := sq_sg_list req |}.

Definition set_sq_inline (req : virtio_rdma_sq_req) (inline_len : Z)
  (inline_data : list Byte.byte) : virtio_rdma_sq_req :=
  {| sq_wr_id := sq_wr_id req; sq_num_sge := sq_num_sge req;
     sq_send_flags := sq_send_flags req; sq_opcode := sq_opcode req;
     sq_imm_data := sq_imm_data req;
     sq_ud_remote_qpn := sq_ud_remote_qpn req;
     sq_ud_remote_qkey := sq_ud_remote_qkey req; sq_ud_ah := sq_ud_ah req;
     sq_rdma_remote_addr := sq_rdma_remote_addr req;
     sq_rdma_rkey := sq_rdma_rkey req; sq_inline_len := inline_len;
     sq_inline_data := inline_data; sq_sg_list := sq_sg_list req |}.

Definition set_sq_sg_list (req : virtio_rdma_sq_req) (sgl : list ibv_sge)
  : virtio_rdma_sq_req :=
  {| sq_wr_id := sq_wr_id req; sq_num_sge := sq_num_sge req;
     sq_send_flags := sq_send_flags req; sq_opcode := sq_opcode req;
     sq_imm_data := sq_imm_data req;
     sq_ud_remote_qpn := sq_ud_remote_qpn req;
     sq_ud_remote_qkey := sq_ud_remote_qkey req; sq_ud_ah := sq_ud_ah req;
     sq_rdma_remote_addr := sq_rdma_remote_addr req;
     sq_rdma_rkey := sq_rdma_rkey req; sq_inline_len := sq_inline_len req;
     sq_inline_data := sq_inline_data req; sq_sg_list := sgl |}.

(* ------------------------------------------------------------------ *)
(** ** Memory copies *)

(** [n] bytes of application memory starting at [a]. *)
Definition read_bytes (mem : Z -> Byte.byte) (a n : Z) : list Byte.byte :=
  map (fun i => mem (a + Z.of_nat i)) (seq 0 (Z.to_nat n)).

(** [memcpy(dst + off, src, |src|)] on a byte region. *)
Definition memcpy_at (dst : list Byte.byte) (off : nat) (src : list Byte.byte)
  : list Byte.byte :=
  firstn off dst ++ src ++ skipn (off + length src) dst.

(** [memcpy(sgl, sg_list, sgl_len)] on a descriptor array: [sgl_len] bytes
    are whole descriptors of [size] bytes each. *)
Definition memcpy_sgl (sgl sg_list : list ibv_sge) (sgl_len size : Z)
  : list ibv_sge :=
  let n := Z.to_nat (sgl_len / size) in
  firstn n sg_list ++ skipn n sgl.

(* ------------------------------------------------------------------ *)
(** ** The data path *)

Section DataPath.
Context {H : Headers}.

(** Application memory, read by the inline copy. *)
Variable mem : Z -> Byte.byte.

(** The loop of [copy_inline_data_to_wqe]; [p] is the offset of the write
    pointer from [req->inline_data]. *)
Fixpoint copy_inline_loop (sgl : list ibv_sge) (p : nat)
  (req : virtio_rdma_sq_req) : virtio_rdma_sq_req :=
  match sgl with
  | [] => req
  | sge :: rest =>
      let data := memcpy_at (sq_inline_data req) p
                    (read_bytes mem (sge_addr sge) (sge_length sge)) in
      copy_inline_loop rest (p + Z.to_nat (sge_length sge))
        (set_sq_inline req (u32 (sq_inline_len req + sge_length sge)) data)
  end.

Definition copy_inline_data_to_wqe (req : virtio_rdma_sq_req)
  (ibwr : ibv_send_wr) : virtio_rdma_sq_req :=
  copy_inline_loop (swr_sg_list ibwr) 0 req.

(** Outcome of the body of a posting loop for one request: the request was
    published, or the loop is left through [goto] with a return code. *)
Inductive post_step : Type :=
  | Published (qp : virtio_rdma_qp)
  | Bail (rc : Z) (qp : virtio_rdma_qp).

(** The two groups of case labels of the inner switch on [wr->opcode]. *)
Definition rdma_opcode (opcode : Z) : bool :=
  (opcode =? IBV_WR_RDMA_READ)
  || (opcode =? IBV_WR_RDMA_WRITE)
  || (opcode =? IBV_WR_RDMA_WRITE_WITH_IMM).

Definition send_opcode (opcode : Z) : bool :=
  (opcode =? IBV_WR_SEND) || (opcode =? IBV_WR_SEND_WITH_IMM).

(** The two nested switches of [virtio_rdma_post_send] on the transport
    and the opcode: the record with its addressing filled in, or the
    return code of the [goto out_err]. *)
Definition resolve_address (qp_type : Z) (wr : ibv_send_wr)
  (req : virtio_rdma_sq_req) : Z + virtio_rdma_sq_req :=
  if qp_type =? IBV_QPT_UD then
    inr (set_sq_ud req (swr_ud_remote_qpn wr) (swr_ud_remote_qkey wr)
           (ah_num (swr_ud_ah wr)))
  else if qp_type =? IBV_QPT_RC then
    if rdma_opcode (swr_opcode wr) then
      inr (set_sq_rdma req (swr_rdma_remote_addr wr) (swr_rdma_rkey wr))
    else if send_opcode (swr_opcode wr) then
      inr req
    else inl (- EOPNOTSUPP)
  else inl (- EINVAL).

(** [wr->send_flags & IBV_SEND_INLINE] *)
Definition inline_flag_set (wr : ibv_send_wr) : bool :=
  negb (Z.land (swr_send_flags wr) IBV_SEND_INLINE =? 0).

(** The payload step of [virtio_rdma_post_send]: the inline copy, which
    resets [inline_len] and [sgl_len], or the copy of the descriptor array.
    The result is the record and the value of [sgl_len]. *)
Definition fill_payload (wr : ibv_send_wr) (req : virtio_rdma_sq_req)
  (sgl_len : Z) : virtio_rdma_sq_req * Z :=
  if inline_flag_set wr then
    (copy_inline_data_to_wqe (set_sq_inline req 0 (sq_inline_data req)) wr, 0)
  else
    (set_sq_sg_list req
       (memcpy_sgl (sq_sg_list req) (swr_sg_list wr) sgl_len sizeof_sge),
     sgl_len).

(** The header assignments of [virtio_rdma_post_send]. *)
Definition sq_header (wr : ibv_send_wr) (req : virtio_rdma_sq_req)
  : virtio_rdma_sq_req :=
  set_sq_header req (swr_num_sge wr)
    (to_virtio_send_flags (swr_send_flags wr))
    (to_virtio_wr_opcode (swr_opcode wr))
    (swr_id wr) (swr_imm_data wr).

(** The body of the [while (wr)] loop of [virtio_rdma_post_send]. *)
Definition post_send_one (qp : virtio_rdma_qp) (wr : ibv_send_wr) : post_step :=
  let sq1 := reclaim (sq qp) in
  match vring_flist_pop sq1 with
  | (None, sq2) => Bail (- ENOMEM) (set_sq qp sq2)
  | (Some buf_entry, sq2) =>
      let req := buf buf_entry in
      let sgl_len := u32 (sizeof_sge * swr_num_sge wr) in
      let req := sq_header wr req in
      match resolve_address (qp_type qp) wr req with
      | inl rc => Bail rc (set_sq qp sq2)
      | inr req =>
          let '(req, sgl_len) := fill_payload wr req sgl_len in
          Published
            (set_sq qp (vring_add_one sq2 (set_buf buf_entry req)
                          (sizeof_sq_req + sgl_len)))
      end
  end.

(** How a posting loop ends: [wr] became [NULL], or a [goto] left it with
    the request it was looking at. *)
Inductive loop_end (W : Type) : Type :=
  | Loop_done (qp : virtio_rdma_qp)
  | Loop_bail (rc : Z) (wr : list W) (qp : virtio_rdma_qp).

Arguments Loop_done {W}.
Arguments Loop_bail {W}.

Fixpoint post_send_loop (qp : virtio_rdma_qp) (wr : list ibv_send_wr)
  : loop_end ibv_send_wr :=
  match wr with
  | [] => Loop_done qp
  | w :: next =>
      match post_send_one qp w with
      | Published qp' => post_send_loop qp' next
      | Bail rc qp' => Loop_bail rc wr qp'
      end
  end.

(** What a posting function leaves behind: the return value, the contents
    of [*bad_wr], the queue pair, and the notifications it sent. *)
Record post_result (W : Type) : Type := {
  ret : Z;
  bad_wr : list W;
  qp_after : virtio_rdma_qp;
  events : list event
}.

(** [virtio_rdma_post_send]; [bad0] is what [*bad_wr] held at the call. *)
Definition virtio_rdma_post_send (qp : virtio_rdma_qp)
  (wr : list ibv_send_wr) (bad0 : list ibv_send_wr) : post_result ibv_send_wr :=
  match post_send_loop qp wr with
  | Loop_done qp' =>
      {| ret := 0; bad_wr := [];
         qp_after := qp';
         events := [if doorbell (sq qp') then Ev_vring_notify true
                    else Ev_slow_doorbell true] |}
  | Loop_bail rc wr' qp' =>
      {| ret := rc; bad_wr := wr'; qp_after := qp'; events := [] |}
  end.

(** The body of the [while (wr)] loop of [virtio_rdma_post_recv]. *)
Definition post_recv_one (qp : virtio_rdma_qp) (wr : ibv_recv_wr) : post_step :=
  let rq1 := reclaim (rq qp) in
  match vring_flist_pop rq1 with
  | (None, rq2) => Bail (- ENOMEM) (set_rq qp rq2)
  | (Some buf_entry, rq2) =>
      let req := buf buf_entry in
      let sgl_len := u32 (sizeof_sge * rwr_num_sge wr) in
      let req := {| rq_wr_id := rwr_id wr; rq_num_sge := rwr_num_sge wr;
                    rq_sg_list := memcpy_sgl (rq_sg_list req) (rwr_sg_list wr)
                                    sgl_len sizeof_sge |} in
      Published
        (set_rq qp (vring_add_one rq2 (set_buf buf_entry req)
                      (sizeof_rq_req + sgl_len)))
  end.

Fixpoint post_recv_loop (qp : virtio_rdma_qp) (wr : list ibv_recv_wr)
  : loop_end ibv_recv_wr :=
  match wr with
  | [] => Loop_done qp
  | w :: next =>
      match post_recv_one qp w with
      | Published qp' => post_recv_loop qp' next
      | Bail rc qp' => Loop_bail rc wr qp'
      end
  end.

(** [virtio_rdma_post_recv]; [*bad_wr] is written on the failure path
    only. *)
Definition virtio_rdma_post_recv (qp : virtio_rdma_qp)
  (wr : list ibv_recv_wr) (bad0 : list ibv_recv_wr) : post_result ibv_recv_wr :=
  match post_recv_loop qp wr with
  | Loop_done qp' =>
      {| ret := 0; bad_wr := bad0;
         qp_after := qp';
         events := [if doorbell (rq qp') then Ev_vring_notify false
                    else Ev_slow_doorbell false] |}
  | Loop_bail rc wr' qp' =>
      {| ret := rc; bad_wr := wr'; qp_after := qp'; events := [] |}
  end.

(** The loop of [virtio_rdma_poll_cq]: [n] is [num_entries - i], [wc] the
    entries filled so far. *)
Fixpoint poll_loop (n : nat) (r : virtio_rdma_vring virtio_rdma_cq_req)
  (wc : list ibv_wc) : list ibv_wc * virtio_rdma_vring virtio_rdma_cq_req :=
  match n with
  | O => (wc, r)
  | S n' =>
      match vring_get_one r with
      | (None, r') => (wc, r')
      | (Some buf_entry, r') =>
          let req := buf buf_entry in
          let w := {| wc_wr_id := cq_wr_id req;
                      wc_status := to_ib_status (cq_status req);
                      wc_opcode := to_ib_wc_opcode (cq_opcode req);
                      wc_vendor_err := cq_vendor_err req;
                      wc_byte_len := cq_byte_len req;
                      wc_imm_data := cq_imm_data req;
                      wc_src_qp := cq_src_qp req;
                      wc_wc_flags := to_ib_wc_flags (cq_wc_flags req);
                      wc_pkey_index := 0 |} in
          poll_loop n' (vring_add_one r' buf_entry (len buf_entry)) (wc ++ [w])
      end
  end.

(** [virtio_rdma_poll_cq]: the return value [i], the entries [wc[0..i-1]],
    and the completion queue. *)
Definition virtio_rdma_poll_cq (cq : virtio_rdma_cq) (num_entries : Z)
  : Z * list ibv_wc * virtio_rdma_cq :=
  let '(wc, r) := poll_loop (Z.to_nat num_entries) (vring cq) [] in
  (Z.of_nat (length wc), wc, {| num_cqe := num_cqe cq; vring := r |}).

(** The loop of [virtio_rdma_create_cq] that hands every slot to the
    backend.  A [NULL] from the free list would be dereferenced by
    [vring_add_one]; that case has no result. *)
Fixpoint prepost_loop (n : nat) (r : virtio_rdma_vring virtio_rdma_cq_req)
  : option (virtio_rdma_vring virtio_rdma_cq_req) :=
  match n with
  | O => Some r
  | S n' =>
      match vring_flist_pop r with
      | (None, _) => None
      | (Some buf_entry, r') =>
          prepost_loop n' (vring_add_one r' buf_entry sizeof_cq_req)
      end
  end.

(** What the collaborators of [virtio_rdma_create_cq] answer: the return
    code of [ibv_cmd_create_cq], the capacity in its response, whether
    [mmap] failed, and the return code of [vring_init_pool]. *)
Record create_cq_env : Type := {
  cmd_rc : Z;
  resp_num_cqe : nat;
  mmap_failed : bool;
  init_pool_rc : Z
}.

(** [virtio_rdma_create_cq]; [None] is the [NULL] result. *)
Definition virtio_rdma_create_cq (env : create_cq_env) : option virtio_rdma_cq :=
  if negb (cmd_rc env =? 0) then None
  else if mmap_failed env then None
  else if negb (init_pool_rc env =? 0) then None
  else
    match prepost_loop (resp_num_cqe env)
            (vring_init_pool zero_cq_req false (resp_num_cqe env) sizeof_cq_req) with
    | None => None
    | Some r => Some {| num_cqe := resp_num_cqe env; vring := r |}
    end.

(** What [virtio_rdma_create_qp] is given: the transport and the
    scatter-gather limits of the caller's attributes, and the answers of
    its collaborators (the return code of [ibv_cmd_create_qp], the queue
    depths, queue-pair number and notifier size of the response, whether
    either [mmap] failed, and the return codes of [vring_init_pool]). *)
Record create_qp_env : Type := {
  attr_qp_type : Z;
  attr_max_send_sge : Z;
  attr_max_recv_sge : Z;
  qp_cmd_rc : Z;
  resp_num_sqe : nat;
  resp_num_rqe : nat;
  resp_qpn : Z;
  resp_notifier_size : Z;
  sq_mmap_failed : bool;
  sq_init_pool_rc : Z;
  rq_mmap_failed : bool;
  rq_init_pool_rc : Z
}.

(** [virtio_rdma_create_qp]; [None] is the [NULL] result. *)
Definition virtio_rdma_create_qp (env : create_qp_env) : option virtio_rdma_qp :=
  if negb (qp_cmd_rc env =? 0) then None
  else if sq_mmap_failed env then None
  else if negb (sq_init_pool_rc env =? 0) then None
  else if rq_mmap_failed env then None
  else if negb (rq_init_pool_rc env =? 0) then None
  else
    let db := negb (resp_notifier_size env =? 0) in
    Some {| qp_type := attr_qp_type env;
            qpn := resp_qpn env;
            num_sq_sge := attr_max_send_sge env;
            num_rq_sge := attr_max_recv_sge env;
            sq := vring_init_pool zero_sq_req db (resp_num_sqe env)
                    (sizeof_sq_req + attr_max_send_sge env * sizeof_sge);
            rq := vring_init_pool zero_rq_req db (resp_num_rqe env)
                    (sizeof_rq_req + attr_max_recv_sge env * sizeof_sge) |}.

End DataPath.

Arguments Loop_done {W}.
Arguments Loop_bail {W}.

(* ------------------------------------------------------------------ *)
(** ** Concrete inputs *)

(** Application memory whose byte at address [a] is [a mod 256]. *)
Definition sample_mem (a : Z) : Byte.byte :=
  match Strings.Byte.of_N (Z.to_N (a mod 256)) with
  | Some b => b
  | None => Byte.x00
  end.

(** A queue pair as [virtio_rdma_create_qp] builds it, of the given
    transport, depth (both directions) and scatter-gather limit, with or
    without a doorbell. *)
Definition sample_qp_env (ty : Z) (depth : nat) (max_sge : Z) (db : bool)
  : create_qp_env :=
  {| attr_qp_type := ty; attr_max_send_sge := max_sge;
     attr_max_recv_sge := max_sge; qp_cmd_rc := 0;
     resp_num_sqe := depth; resp_num_rqe := depth; resp_qpn := 7;
     resp_notifier_size := if db then 4 else 0;
     sq_mmap_failed := false; sq_init_pool_rc := 0;
     rq_mmap_failed := false; rq_init_pool_rc := 0 |}.

Definition sample_qp (ty : Z) (depth : nat) (max_sge : Z) (db : bool)
  : virtio_rdma_qp :=
  let env := sample_qp_env ty depth max_sge db in
  {| qp_type := attr_qp_type env;
     qpn := resp_qpn env;
     num_sq_sge := attr_max_send_sge env;
     num_rq_sge := attr_max_recv_sge env;
     sq := vring_init_pool zero_sq_req db depth
             (@sizeof_sq_req sample_headers
              + attr_max_send_sge env * @sizeof_sge sample_headers);
     rq := vring_init_pool zero_rq_req db depth
             (@sizeof_rq_req sample_headers
              + attr_max_recv_sge env * @sizeof_sge sample_headers) |}.

Definition sample_sge (a n : Z) : ibv_sge :=
  {| sge_addr := a; sge_length := n; sge_lkey := 1 |}.

Definition sample_send_wr (id opcode flags : Z) (sgl : list ibv_sge)
  : ibv_send_wr :=
  {| swr_id := id; swr_sg_list := sgl; swr_opcode := opcode;
     swr_send_flags := flags; swr_imm_data := 0;
     swr_rdma_remote_addr := 4096; swr_rdma_rkey := 17;
     swr_ud_ah := {| ah_num := 3 |}; swr_ud_remote_qpn := 9;
     swr_ud_remote_qkey := 11 |}.

Definition sample_recv_wr (id : Z) (sgl : list ibv_sge) : ibv_recv_wr :=
  {| rwr_id := id; rwr_sg_list := sgl |}.

Definition sample_cq_env (n : nat) : create_cq_env :=
  {| cmd_rc := 0; resp_num_cqe := n; mmap_failed := false; init_pool_rc := 0 |}.

(** A send of one 4-byte fragment, a send with the inline flag and two
    4-byte fragments, an RDMA write, and a request whose opcode (atomic
    compare and swap) is in none of the switches. *)
Definition send_wr (id : Z) : ibv_send_wr :=
  sample_send_wr id 2 0 [sample_sge 0 4].

Definition inline_wr : ibv_send_wr :=
  sample_send_wr 1 2 8 [sample_sge 16 4; sample_sge 32 4].

Definition two_sge_wr : ibv_send_wr :=
  sample_send_wr 1 2 0 [sample_sge 16 4; sample_sge 32 4].

Definition rdma_write_wr : ibv_send_wr :=
  sample_send_wr 1 0 0 [sample_sge 0 4].

Definition atomic_wr : ibv_send_wr :=
  sample_send_wr 1 5 0 [sample_sge 0 4].

Definition recv_wr (id : Z) : ibv_recv_wr :=
  sample_recv_wr id [sample_sge 64 4].

Definition two_sge_recv_wr : ibv_recv_wr :=
  sample_recv_wr 1 [sample_sge 64 4; sample_sge 128 4].

(** A fresh entry of a send pool. *)
Definition sample_entry (i : nat) (size : Z)
  : virtio_rdma_buf_pool_entry virtio_rdma_sq_req :=
  {| index := i; buf := zero_sq_req; len := size |}.

(** Slot size and published length of the descriptors of a ring. *)
Definition sizes {A : Type} (l : list (virtio_rdma_buf_pool_entry A * Z))
  : list (Z * Z) :=
  map (fun d => (len (fst d), snd d)) l.

(** The queue pair a loop over a batch ends with, whichever way it ends. *)
Definition loop_qp {W : Type} (l : loop_end W) : virtio_rdma_qp :=
  match l with
  | Loop_done qp => qp
  | Loop_bail _ _ qp => qp
  end.

(* ------------------------------------------------------------------ *)
(** ** Vocabulary of the statements *)



(** Work-request ids of the send records published in a ring, oldest
    first. *)
Definition published_ids
  (l : list (virtio_rdma_buf_pool_entry virtio_rdma_sq_req * Z)) : list Z :=
  map (fun d => sq_wr_id (buf (fst d))) l.

(** The addressing a wire record carries, compared with the request and
    with what the slot held before. *)
Definition carries_ud (w : ibv_send_wr) (req : virtio_rdma_sq_req) : Prop :=
  sq_ud_remote_qpn req = swr_ud_remote_qpn w
  /\ sq_ud_remote_qkey req = swr_ud_remote_qkey w
  /\ sq_ud_ah req = ah_num (swr_ud_ah w).

Definition carries_rdma (w : ibv_send_wr) (req : virtio_rdma_sq_req) : Prop :=
  sq_rdma_remote_addr req = swr_rdma_remote_addr w
  /\ sq_rdma_rkey req = swr_rdma_rkey w.

Definition same_ud (old req : virtio_rdma_sq_req) : Prop :=
  sq_ud_remote_qpn req = sq_ud_remote_qpn old
  /\ sq_ud_remote_qkey req = sq_ud_remote_qkey old
  /\ sq_ud_ah req = sq_ud_ah old.

Definition same_rdma (old req : virtio_rdma_sq_req) : Prop :=
  sq_rdma_remote_addr req = sq_rdma_remote_addr old
  /\ sq_rdma_rkey req = sq_rdma_rkey old.

(** The request is published as one more descriptor of the send ring, and
    its record satisfies [P]. *)
Definition published_with {H : Headers} (mem : Z -> Byte.byte)
  (qp : virtio_rdma_qp) (w : ibv_send_wr)
  (P : virtio_rdma_sq_req -> Prop) : Prop :=
  exists qp' e n,
    post_send_one mem qp w = Published qp'
    /\ avail (sq qp') = avail (sq qp) ++ [(e, n)]
    /\ P (buf e).

(** The call stops at the head of the batch with the return code [rc]:
    [*bad_wr] is the whole batch, nothing is published, nothing notified. *)
Definition rejected_with {H : Headers} (mem : Z -> Byte.byte)
  (qp : virtio_rdma_qp) (w : ibv_send_wr) (rest bad0 : list ibv_send_wr)
  (rc : Z) : Prop :=
  ret (virtio_rdma_post_send mem qp (w :: rest) bad0) = rc
  /\ bad_wr (virtio_rdma_post_send mem qp (w :: rest) bad0) = w :: rest
  /\ avail (sq (qp_after (virtio_rdma_post_send mem qp (w :: rest) bad0)))
     = avail (sq qp)
  /\ events (virtio_rdma_post_send mem qp (w :: rest) bad0) = [].


(* ------------------------------------------------------------------ *)
(** ** What is assumed of the headers *)

(** The value [return -1] takes in a [uint8_t]. *)
Definition sentinel : Z := u8 (-1).

Definition labels (cases : list (Z * Z)) : list Z := map fst cases.
Definition codes (cases : list (Z * Z)) : list Z := map snd cases.

(** Enumerators that can be told from the sentinel: bytes below the
    all-ones pattern. *)
Definition code_ok (c : Z) : Prop := 0 <= c < 255.

(** Flag enumerators: values within the low seven bits. *)
Definition flag_ok (f : Z) : Prop := 0 <= f < 128.

(** A table of a switch: the labels are distinct, as C demands of case
    labels, and labels and values are enumerators of byte-wide codes with
    distinct values. *)
Record table_ok (cases : list (Z * Z)) : Prop := {
  labels_distinct : NoDup (labels cases);
  labels_fit : Forall code_ok (labels cases);
  codes_distinct : NoDup (codes cases);
  codes_fit : Forall code_ok (codes cases)
}.

(** What the statements assume of the constants: the five tables are
    tables in the sense above, the flag enumerators lie within the low
    seven bits, and the two case labels of the switch on the transport
    differ. *)
Record headers_ok (H : Headers) : Prop := {
  ok_status : table_ok ib_status_cases;
  ok_wc_opcode : table_ok ib_wc_opcode_cases;
  ok_wr_opcode : table_ok virtio_wr_opcode_cases;
  ok_wc_flags : table_ok ib_wc_flags_cases;
  ok_send_flags : table_ok virtio_send_flags_cases;
  ok_wc_flag_bits : Forall flag_ok (codes ib_wc_flags_cases);
  ok_send_flag_bits : Forall flag_ok (codes virtio_send_flags_cases);
  ok_qp_types : IBV_QPT_UD <> IBV_QPT_RC
}.

(* ------------------------------------------------------------------ *)
(** ** Device query *)

(** The three fields [virtio_rdma_query_device] cuts out of the 64-bit
    firmware version of the response: [major], [minor], [sub_minor]. *)
Definition fw_ver_parts (raw_fw_ver : Z) : Z * Z * Z :=
  (Z.land (Z.shiftr raw_fw_ver 32) 0xffff,
   Z.land (Z.shiftr raw_fw_ver 16) 0xffff,
   Z.land raw_fw_ver 0xffff).

(** The decimal digit [d] as a character. *)
Definition digit (d : Z) : Ascii.ascii := Ascii.ascii_of_nat (48 + Z.to_nat d).

(** The decimal digits of [x], most significant first, by repeated
    division; the fuel bounds the number of digits. *)
Fixpoint print_digits (fuel : nat) (x : Z) : String.string :=
  match fuel with
  | O => String.EmptyString
  | S fuel' =>
      if x <? 10 then String.String (digit x) String.EmptyString
      else String.append (print_digits fuel' (x / 10))
             (String.String (digit (x mod 10)) String.EmptyString)
  end.

(** [%d] of an [unsigned int] that is not negative as an [int]: at most
    ten digits. *)
Definition print_d (x : Z) : String.string := print_digits 10 x.

(** The separator of the format, the character with code 46. *)
Definition dot : String.string :=
  String.String (Ascii.ascii_of_nat 46) String.EmptyString.

(** [snprintf(buf, size, "%d.%d.%d", major, minor, sub_minor)]: at most
    [size - 1] characters are stored. *)
Definition snprintf_fw_ver (size : nat) (major minor sub_minor : Z)
  : String.string :=
  String.substring 0 (size - 1)
    (String.append (print_d major)
       (String.append dot (String.append (print_d minor)
          (String.append dot (print_d sub_minor))))).

(** [virtio_rdma_query_device], as far as it goes beyond the command:
    [ret] and [resp_fw_ver] are the return code and the firmware version
    of [ibv_cmd_query_device_any], [size] is [sizeof(attr->orig_attr.fw_ver)]
    and [fw_ver] what that field held.  The result is the return value and
    the field afterwards. *)
Definition virtio_rdma_query_device (size : nat) (ret resp_fw_ver : Z)
  (fw_ver : String.string) : Z * String.string :=
  if negb (ret =? 0) then (ret, fw_ver)
  else
    let '(major, minor, sub_minor) := fw_ver_parts resp_fw_ver in
    (0, snprintf_fw_ver size major minor sub_minor).

(* ------------------------------------------------------------------ *)
(** ** Resources of queue objects *)

(** The mapped regions of the queue objects. *)
Inductive region : Type := Cq_buf | Sq_buf | Rq_buf.

(** What creation and destruction do to resources: [calloc] and [free] of
    the object, a kernel object that the create command made, a destroy
    command, [mmap] and [munmap] of a region, the pool table that a
    successful [vring_init_pool] leaves in [pool_table] (the one
    [virtio_rdma_destroy_qp] frees), [free] of a pool table. *)
Inductive res_event : Type :=
  | Res_calloc
  | Res_free
  | Res_kernel_create
  | Res_kernel_destroy
  | Res_mmap (r : region)
  | Res_munmap (r : region)
  | Res_alloc_pool_table (r : region)
  | Res_free_pool_table (r : region).


(** The resource actions of [virtio_rdma_create_qp], in program order:
    the labels [fail_rq], [fail_sq] and [fail] fall through one into the
    next, and none of them frees a pool table.  A call of
    [vring_init_pool] that returns 0 has allocated the pool table of its
    ring; one that fails is taken to leave nothing behind. *)
Definition create_qp_effects (env : create_qp_env) : list res_event :=
  let fail := [Res_kernel_destroy; Res_free] in
  let fail_sq := Res_munmap Sq_buf :: fail in
  let fail_rq := Res_munmap Rq_buf :: fail_sq in
  Res_calloc ::
  if negb (qp_cmd_rc env =? 0) then [Res_free]
  else
    Res_kernel_create ::
    if sq_mmap_failed env then fail
    else
      Res_mmap Sq_buf ::
      if negb (sq_init_pool_rc env =? 0) then fail_sq
      else
        Res_alloc_pool_table Sq_buf ::
        if rq_mmap_failed env then fail_sq
        else
          Res_mmap Rq_buf ::
          if negb (rq_init_pool_rc env =? 0) then fail_rq
          else [Res_alloc_pool_table Rq_buf].


(** [virtio_rdma_destroy_qp] *)
Definition virtio_rdma_destroy_qp (rc : Z) (sq_buf rq_buf : bool)
  : Z * list res_event :=
  if negb (rc =? 0) then (rc, [Res_kernel_destroy])
  else
    (0, Res_kernel_destroy ::
        (if sq_buf then [Res_munmap Sq_buf] else [])
        ++ (if rq_buf then [Res_munmap Rq_buf] else [])
        ++ [Res_free_pool_table Sq_buf; Res_free_pool_table Rq_buf; Res_free]).

Definition region_eqb (a b : region) : bool :=
  match a, b with
  | Cq_buf, Cq_buf | Sq_buf, Sq_buf | Rq_buf, Rq_buf => true
  | _, _ => false
  end.

Definition res_event_eqb (a b : res_event) : bool :=
  match a, b with
  | Res_calloc, Res_calloc | Res_free, Res_free
  | Res_kernel_create, Res_kernel_create
  | Res_kernel_destroy, Res_kernel_destroy => true
  | Res_mmap r, Res_mmap r' | Res_munmap r, Res_munmap r'
  | Res_alloc_pool_table r, Res_alloc_pool_table r'
  | Res_free_pool_table r, Res_free_pool_table r' => region_eqb r r'
  | _, _ => false
  end.

(** How often an action occurs in a trace. *)
Definition occurrences (e : res_event) (tr : list res_event) : nat :=
  length (filter (res_event_eqb e) tr).

(** Every acquisition of a trace is undone exactly once: the object
    memory, the kernel object and each mapping. *)
Definition balanced (tr : list res_event) : Prop :=
  occurrences Res_calloc tr = occurrences Res_free tr
  /\ occurrences Res_kernel_create tr = occurrences Res_kernel_destroy tr
  /\ forall r, occurrences (Res_mmap r) tr = occurrences (Res_munmap r) tr.

(* ------------------------------------------------------------------ *)
(** ** Further vocabulary *)

(** The completion entry [virtio_rdma_poll_cq] fills from a wire record. *)
Definition decode_cq_req {H : Headers} (req : virtio_rdma_cq_req) : ibv_wc :=
  {| wc_wr_id := cq_wr_id req;
     wc_status := to_ib_status (cq_status req);
     wc_opcode := to_ib_wc_opcode (cq_opcode req);
     wc_vendor_err := cq_vendor_err req;
     wc_byte_len := cq_byte_len req;
     wc_imm_data := cq_imm_data req;
     wc_src_qp := cq_src_qp req;
     wc_wc_flags := to_ib_wc_flags (cq_wc_flags req);
     wc_pkey_index := 0 |}.

(** The slot indices a ring and its pool own, wherever they are. *)
Definition owned_indices {A : Type} (r : virtio_rdma_vring A) : list nat :=
  map (fun e => index e) (flist r)
  ++ map (fun d => index (fst d)) (avail r)
  ++ map (fun e => index e) (used r).

(** Entries a posting call can still take: the free ones and those the
    backend has returned. *)
Definition takeable {A : Type} (r : virtio_rdma_vring A) : nat :=
  length (flist r) + length (used r).

(** Work-request ids of the receive records published in a ring. *)
Definition published_recv_ids
  (l : list (virtio_rdma_buf_pool_entry virtio_rdma_rq_req * Z)) : list Z :=
  map (fun d => rq_wr_id (buf (fst d))) l.

(** A flag enumerator that is one bit of a byte. *)
Definition single_bit (f : Z) : Prop := In f [1; 2; 4; 8; 16; 32; 64; 128].

(** Whether the switches of [virtio_rdma_post_send] let a request on
    this transport through; the record they are given does not matter. *)
Definition addressable {H : Headers} (qp_type : Z) (w : ibv_send_wr) : bool :=
  match resolve_address qp_type w zero_sq_req with
  | inr _ => true
  | inl _ => false
  end.

(* ------------------------------------------------------------------ *)
(** ** Further concrete inputs *)

(** A completion of a send with the given id, as the backend writes it. *)
Definition sample_completion (id : Z) : virtio_rdma_cq_req :=
  {| cq_wr_id := id; cq_status := 0; cq_opcode := 0; cq_vendor_err := 0;
     cq_byte_len := 8; cq_imm_data := 0; cq_src_qp := 7; cq_wc_flags := 2 |}.

(** The backend completes one descriptor per id, in list order. *)
Fixpoint complete_ids (ids : list Z) (r : virtio_rdma_vring virtio_rdma_cq_req)
  : virtio_rdma_vring virtio_rdma_cq_req :=
  match ids with
  | [] => r
  | id :: rest => complete_ids rest (backend_complete (fun _ => sample_completion id) r)
  end.

(** A completion queue of depth [n] after these completions. *)
Definition sample_cq (n : nat) (ids : list Z) : virtio_rdma_cq :=
  match @virtio_rdma_create_cq sample_headers (sample_cq_env n) with
  | Some cq => {| num_cqe := num_cqe cq; vring := complete_ids ids (vring cq) |}
  | None => {| num_cqe := 0; vring := vring_init_pool zero_cq_req false 0 0 |}
  end.

(** A queue pair on which the backend has returned the first [k] of the
    descriptors published in each direction. *)
Fixpoint return_n {A : Type} (k : nat) (r : virtio_rdma_vring A)
  : virtio_rdma_vring A :=
  match k with
  | O => r
  | S k' => return_n k' (backend_complete (fun b => b) r)
  end.

Definition after_backend (k : nat) (qp : virtio_rdma_qp) : virtio_rdma_qp :=
  set_rq (set_sq qp (return_n k (sq qp))) (return_n k (rq qp)).

(** Tactics for lists of concrete constants. *)
Ltac nodup_consts :=
  repeat (constructor;
          [ simpl; let Hc := fresh "Hc" in
            intros Hc;
            repeat (destruct Hc as [Hc|Hc]; [discriminate Hc|]); exact Hc
          | ]);
  constructor.

Ltac forall_consts :=
  repeat (constructor; [unfold code_ok, flag_ok; simpl; lia|]); constructor.

(** Closes a goal on the resource trace of one path. *)
Ltac trace_cases :=
  unfold balanced, occurrences; cbn;
  repeat split; try (let reg := fresh "reg" in intros reg; destruct reg);
  reflexivity.

(* ------------------------------------------------------------------ *)
(** ** Lemmas on the switch *)

Unset Implicit Arguments.

Lemma u8_range (x : Z) : is_u8 (u8 x).
Proof. unfold is_u8, u8. apply Z.mod_pos_bound. lia. Qed.


Lemma sentinel_255 : sentinel = 255.
Proof. reflexivity. Qed.


Lemma switch_u8_range (cases : list (Z * Z)) (x : Z) :
  is_u8 (switch_u8 cases x).
Proof.
  induction cases as [|[l v] rest IH]; simpl.
  - apply u8_range.
  - destruct (x =? l); [apply u8_range | exact IH].
Qed.

Lemma switch_u8_unmapped (cases : list (Z * Z)) (x : Z) :
  ~ In x (labels cases) -> switch_u8 cases x = sentinel.
Proof.
  induction cases as [|[l v] rest IH]; simpl; intros Hn.
  - reflexivity.
  - destruct (Z.eqb_spec x l) as [->|Hne].
    + exfalso. apply Hn. now left.
    + apply IH. intros Hin. apply Hn. now right.
Qed.


Lemma in_labels_pair (cases : list (Z * Z)) (l : Z) :
  In l (labels cases) -> exists v, In (l, v) cases.
Proof.
  unfold labels. rewrite in_map_iff. intros [[l0 v] [Heq Hin]].
  simpl in Heq. subst. now exists v.
Qed.


Lemma sample_headers_ok : headers_ok sample_headers.
Proof.
  constructor;
    try (constructor; [nodup_consts | forall_consts | nodup_consts | forall_consts]);
    try forall_consts; simpl; try lia; try discriminate.
Qed.






(* ------------------------------------------------------------------ *)
(** ** The ring *)

Section VringFacts.
Variable A : Type.
Implicit Types r : virtio_rdma_vring A.

Lemma reclaim_loop_spec (fuel : nat) r :
  (length (used r) < fuel)%nat ->
  reclaim_loop fuel r =
  {| flist := flist r ++ used r; avail := avail r; used := [];
     doorbell := doorbell r |}.
Proof.
  revert r. induction fuel as [|fuel IH]; intros r Hlt; [inversion Hlt|].
  destruct r as [fl av us db]. simpl in *.
  unfold vring_get_one. simpl. destruct us as [|e us]; simpl.
  - now rewrite app_nil_r.
  - rewrite IH; simpl in *; [|lia].
    now rewrite <- app_assoc.
Qed.

Lemma reclaim_spec r :
  reclaim r =
  {| flist := flist r ++ used r; avail := avail r; used := [];
     doorbell := doorbell r |}.
Proof. unfold reclaim. apply reclaim_loop_spec. lia. Qed.

(** The reclaim loop has really left through its exit test. *)
Lemma reclaim_exits r : fst (vring_get_one (reclaim r)) = None.
Proof. rewrite reclaim_spec. reflexivity. Qed.

Lemma reclaim_total r : pool_total (reclaim r) = pool_total r.
Proof.
  rewrite reclaim_spec. unfold pool_total, free_count, posted_count. simpl.
  rewrite length_app. lia.
Qed.

Lemma reclaim_avail r : avail (reclaim r) = avail r.
Proof. now rewrite reclaim_spec. Qed.

Lemma reclaim_doorbell r : doorbell (reclaim r) = doorbell r.
Proof. now rewrite reclaim_spec. Qed.

Lemma reclaim_used r : used (reclaim r) = [].
Proof. now rewrite reclaim_spec. Qed.

Lemma pop_none r :
  flist r = [] -> vring_flist_pop r = (None, r).
Proof. intros Hf. unfold vring_flist_pop. now rewrite Hf. Qed.

Lemma pop_some r e fl :
  flist r = e :: fl ->
  vring_flist_pop r =
  (Some e, {| flist := fl; avail := avail r; used := used r;
              doorbell := doorbell r |}).
Proof. intros Hf. unfold vring_flist_pop. now rewrite Hf. Qed.

(** Popping an entry and publishing it keeps the pool whole. *)
Lemma pop_add_total r e r' (e' : virtio_rdma_buf_pool_entry A) (n : Z) :
  vring_flist_pop r = (Some e, r') ->
  pool_total (vring_add_one r' e' n) = pool_total r.
Proof.
  unfold vring_flist_pop. destruct (flist r) as [|e0 fl] eqn:Hf; [discriminate|].
  intros Heq. inversion Heq; subst. unfold pool_total, free_count, posted_count.
  simpl. rewrite Hf, length_app. simpl. lia.
Qed.

(** Popping an entry without giving it to anyone loses it. *)
Lemma pop_only_total r e r' :
  vring_flist_pop r = (Some e, r') -> S (pool_total r') = pool_total r.
Proof.
  unfold vring_flist_pop. destruct (flist r) as [|e0 fl] eqn:Hf; [discriminate|].
  intros Heq. inversion Heq; subst. unfold pool_total, free_count, posted_count.
  simpl. rewrite Hf. simpl. lia.
Qed.

Lemma pop_fail_same r r' :
  vring_flist_pop r = (None, r') -> r' = r.
Proof.
  unfold vring_flist_pop. destruct (flist r); [|discriminate].
  intros Heq. now inversion Heq.
Qed.

(** Taking a used descriptor and publishing it again keeps the pool
    whole. *)
Lemma get_add_total r e r' (n : Z) :
  vring_get_one r = (Some e, r') ->
  pool_total (vring_add_one r' e n) = pool_total r.
Proof.
  unfold vring_get_one. destruct (used r) as [|e0 us] eqn:Hu; [discriminate|].
  intros Heq. inversion Heq; subst. unfold pool_total, free_count, posted_count.
  simpl. rewrite Hu, length_app. simpl. lia.
Qed.

Lemma backend_complete_total (f : A -> A) r :
  pool_total (backend_complete f r) = pool_total r.
Proof.
  unfold backend_complete. destruct (avail r) as [|[e n] av] eqn:Ha; [reflexivity|].
  unfold pool_total, free_count, posted_count. simpl.
  rewrite Ha, length_app. simpl. lia.
Qed.

Lemma init_pool_total (init : A) (db : bool) (n : nat) (size : Z) :
  pool_total (vring_init_pool init db n size) = n.
Proof.
  unfold pool_total, free_count, posted_count. simpl.
  rewrite length_map, length_seq. lia.
Qed.

End VringFacts.

(* ------------------------------------------------------------------ *)
(** ** Ownership of pool entries along the data path *)

Section PoolAccounting.
Context {H : Headers}.
Variable mem : Z -> Byte.byte.

Lemma post_recv_one_total (qp : virtio_rdma_qp) (wr : ibv_recv_wr) :
  match post_recv_one qp wr with
  | Published qp' | Bail _ qp' => pool_total (rq qp') = pool_total (rq qp)
  end.
Proof.
  unfold post_recv_one.
  destruct (vring_flist_pop (reclaim (rq qp))) as [[e|] r'] eqn:Hpop; simpl.
  - rewrite (pop_add_total _ _ _ _ _ _ Hpop). apply reclaim_total.
  - rewrite (pop_fail_same _ _ _ Hpop). apply reclaim_total.
Qed.

Lemma post_recv_loop_total (wr : list ibv_recv_wr) (qp : virtio_rdma_qp) :
  match post_recv_loop qp wr with
  | Loop_done qp' | Loop_bail _ _ qp' => pool_total (rq qp') = pool_total (rq qp)
  end.
Proof.
  revert qp. induction wr as [|w next IH]; intros qp; simpl; [reflexivity|].
  pose proof (post_recv_one_total qp w) as Hone.
  destruct (post_recv_one qp w) as [qp1|rc qp1]; [|exact Hone].
  specialize (IH qp1).
  destruct (post_recv_loop qp1 next); congruence.
Qed.

(** [virtio_rdma_post_recv] keeps the receive pool whole. *)
Lemma post_recv_total (qp : virtio_rdma_qp) (wr bad0 : list ibv_recv_wr) :
  pool_total (rq (qp_after (virtio_rdma_post_recv qp wr bad0))) = pool_total (rq qp).
Proof.
  unfold virtio_rdma_post_recv. pose proof (post_recv_loop_total wr qp) as Hl.
  destruct (post_recv_loop qp wr); exact Hl.
Qed.

Lemma poll_loop_total (n : nat) (r : virtio_rdma_vring virtio_rdma_cq_req)
  (wc : list ibv_wc) :
  pool_total (snd (poll_loop n r wc)) = pool_total r.
Proof.
  revert r wc. induction n as [|n IH]; intros r wc; simpl; [reflexivity|].
  destruct (vring_get_one r) as [[e|] r'] eqn:Hget.
  - rewrite IH. exact (get_add_total _ _ _ _ _ Hget).
  - simpl. unfold vring_get_one in Hget. destruct (used r); [|discriminate].
    now inversion Hget.
Qed.

(** [virtio_rdma_poll_cq] keeps the completion pool whole. *)
Lemma poll_cq_total (cq : virtio_rdma_cq) (num_entries : Z) :
  pool_total (vring (snd (virtio_rdma_poll_cq cq num_entries))) = pool_total (vring cq).
Proof.
  unfold virtio_rdma_poll_cq.
  pose proof (poll_loop_total (Z.to_nat num_entries) (vring cq) []) as Hl.
  destruct (poll_loop (Z.to_nat num_entries) (vring cq) []) as [wc r].
  exact Hl.
Qed.

(** One iteration of [virtio_rdma_post_send]: a published request keeps the
    send pool whole; leaving with [-ENOMEM] keeps it whole; leaving from the
    address switch, after the pop, takes one entry out of it. *)
Lemma post_send_one_total (qp : virtio_rdma_qp) (wr : ibv_send_wr) :
  match post_send_one mem qp wr with
  | Published qp' => pool_total (sq qp') = pool_total (sq qp)
  | Bail rc qp' =>
      (flist (reclaim (sq qp)) = [] /\ rc = - ENOMEM
       /\ pool_total (sq qp') = pool_total (sq qp))
      \/ (flist (reclaim (sq qp)) <> [] /\ (rc = - EOPNOTSUPP \/ rc = - EINVAL)
          /\ S (pool_total (sq qp')) = pool_total (sq qp))
  end.
Proof.
  unfold post_send_one.
  destruct (vring_flist_pop (reclaim (sq qp))) as [[e|] r'] eqn:Hpop.
  - assert (Hne : flist (reclaim (sq qp)) <> []).
    { unfold vring_flist_pop in Hpop.
      destruct (flist (reclaim (sq qp))); [discriminate|discriminate]. }
    match goal with |- context [resolve_address ?t ?w ?r] =>
      destruct (resolve_address t w r) as [rc|req] eqn:Hres end.
    + right. split; [exact Hne|]. split.
      * unfold resolve_address in Hres.
        repeat match type of Hres with
               | (if ?c then _ else _) = _ => destruct c
               end; inversion Hres; auto.
      * simpl. rewrite (pop_only_total _ _ _ _ Hpop). apply reclaim_total.
    + match goal with |- context [fill_payload ?m ?w ?r ?l] =>
        destruct (fill_payload m w r l) as [req' sgl_len'] end.
      simpl. rewrite (pop_add_total _ _ _ _ _ _ Hpop). apply reclaim_total.
  - left. unfold vring_flist_pop in Hpop.
    destruct (flist (reclaim (sq qp))) eqn:Hf; [|discriminate].
    inversion Hpop; subst. simpl. split; [reflexivity|]. split; [reflexivity|].
    apply reclaim_total.
Qed.

End PoolAccounting.

(* ------------------------------------------------------------------ *)
(** ** The send path *)

Section SendPath.
Context {H : Headers}.
Variable mem : Z -> Byte.byte.




(** The inline copy touches the inline length and the inline region and
    nothing else. *)
Lemma copy_inline_loop_shape (sgl : list ibv_sge) (p : nat)
  (req : virtio_rdma_sq_req) :
  exists n data, copy_inline_loop mem sgl p req = set_sq_inline req n data.
Proof.
  revert p req. induction sgl as [|sge rest IH]; intros p req; simpl.
  - exists (sq_inline_len req), (sq_inline_data req). now destruct req.
  - match goal with |- context [copy_inline_loop mem rest ?p' ?r'] =>
      destruct (IH p' r') as [n [data Heq]] end.
    rewrite Heq. exists n, data. reflexivity.
Qed.






End SendPath.

Section PostSend.
Context {H : Headers}.
Variable mem : Z -> Byte.byte.

Lemma fill_payload_fields (w : ibv_send_wr) (req req' : virtio_rdma_sq_req)
  (sgl_len n : Z) :
  fill_payload mem w req sgl_len = (req', n) ->
  sq_wr_id req' = sq_wr_id req
  /\ sq_num_sge req' = sq_num_sge req
  /\ sq_send_flags req' = sq_send_flags req
  /\ sq_opcode req' = sq_opcode req
  /\ sq_imm_data req' = sq_imm_data req
  /\ sq_ud_remote_qpn req' = sq_ud_remote_qpn req
  /\ sq_ud_remote_qkey req' = sq_ud_remote_qkey req
  /\ sq_ud_ah req' = sq_ud_ah req
  /\ sq_rdma_remote_addr req' = sq_rdma_remote_addr req
  /\ sq_rdma_rkey req' = sq_rdma_rkey req.
Proof.
  unfold fill_payload. destruct (inline_flag_set w); intros Heq;
    inversion Heq; subst; clear Heq.
  - unfold copy_inline_data_to_wqe.
    destruct (copy_inline_loop_shape mem (swr_sg_list w) 0
                (set_sq_inline req 0 (sq_inline_data req))) as [n' [data ->]].
    simpl. repeat split.
  - simpl. repeat split.
Qed.

Lemma resolve_address_wr_id (t : Z) (w : ibv_send_wr)
  (req req1 : virtio_rdma_sq_req) :
  resolve_address t w req = inr req1 -> sq_wr_id req1 = sq_wr_id req.
Proof.
  unfold resolve_address.
  repeat match goal with
         | |- (if ?c then _ else _) = _ -> _ => destruct c
         end; intros Heq; inversion Heq; subst; reflexivity.
Qed.

Lemma post_send_one_exhausted (qp : virtio_rdma_qp) (w : ibv_send_wr) :
  flist (reclaim (sq qp)) = [] ->
  post_send_one mem qp w = Bail (- ENOMEM) (set_sq qp (reclaim (sq qp))).
Proof.
  intros Hf. unfold post_send_one. now rewrite (pop_none _ _ Hf).
Qed.

Lemma post_send_one_ok (qp : virtio_rdma_qp) (w : ibv_send_wr)
  (e : virtio_rdma_buf_pool_entry virtio_rdma_sq_req)
  (fl : list (virtio_rdma_buf_pool_entry virtio_rdma_sq_req))
  (req1 : virtio_rdma_sq_req) :
  flist (reclaim (sq qp)) = e :: fl ->
  resolve_address (qp_type qp) w (sq_header w (buf e)) = inr req1 ->
  exists qp' req' n,
    post_send_one mem qp w = Published qp'
    /\ fill_payload mem w req1 (u32 (sizeof_sge * swr_num_sge w)) = (req', n)
    /\ avail (sq qp') = avail (sq qp) ++ [(set_buf e req', sizeof_sq_req + n)]
    /\ flist (sq qp') = fl
    /\ used (sq qp') = []
    /\ doorbell (sq qp') = doorbell (sq qp)
    /\ qp_type qp' = qp_type qp.
Proof.
  intros Hf Hres. unfold post_send_one.
  rewrite (pop_some _ _ _ _ Hf). cbv zeta. rewrite Hres.
  destruct (fill_payload mem w req1 (u32 (sizeof_sge * swr_num_sge w)))
    as [req' n] eqn:Hfill.
  eexists; exists req', n. split; [reflexivity|]. split; [reflexivity|].
  simpl. rewrite reclaim_avail, reclaim_used, reclaim_doorbell. repeat split.
Qed.

Lemma post_send_one_bail (qp : virtio_rdma_qp) (w : ibv_send_wr)
  (e : virtio_rdma_buf_pool_entry virtio_rdma_sq_req)
  (fl : list (virtio_rdma_buf_pool_entry virtio_rdma_sq_req)) (rc : Z) :
  flist (reclaim (sq qp)) = e :: fl ->
  resolve_address (qp_type qp) w (sq_header w (buf e)) = inl rc ->
  exists qp',
    post_send_one mem qp w = Bail rc qp'
    /\ avail (sq qp') = avail (sq qp)
    /\ flist (sq qp') = fl
    /\ used (sq qp') = [].
Proof.
  intros Hf Hres. unfold post_send_one.
  rewrite (pop_some _ _ _ _ Hf). cbv zeta. rewrite Hres.
  eexists. split; [reflexivity|]. simpl.
  rewrite reclaim_avail, reclaim_used. repeat split.
Qed.

(** A published request is one more descriptor at the producer end of the
    ring, carrying the id of the request. *)
Lemma post_send_one_published (qp qp' : virtio_rdma_qp) (w : ibv_send_wr) :
  post_send_one mem qp w = Published qp' ->
  exists e n,
    avail (sq qp') = avail (sq qp) ++ [(e, n)]
    /\ sq_wr_id (buf e) = swr_id w
    /\ doorbell (sq qp') = doorbell (sq qp)
    /\ doorbell (rq qp') = doorbell (rq qp).
Proof.
  destruct (flist (reclaim (sq qp))) as [|e fl] eqn:Hf.
  - rewrite (post_send_one_exhausted qp w Hf). discriminate.
  - destruct (resolve_address (qp_type qp) w (sq_header w (buf e)))
      as [rc|req1] eqn:Hres.
    + destruct (post_send_one_bail qp w e fl rc Hf Hres) as [q [-> _]].
      discriminate.
    + destruct (post_send_one_ok qp w e fl req1 Hf Hres)
        as [q [req' [n [Hone [Hfill [Hav [_ [_ [Hdb _]]]]]]]]].
      rewrite Hone. intros Heq. inversion Heq; subst q.
      exists (set_buf e req'), (sizeof_sq_req + n).
      split; [exact Hav|]. split.
      * simpl. destruct (fill_payload_fields w req1 req' _ n Hfill) as [-> _].
        rewrite (resolve_address_wr_id _ _ _ _ Hres). reflexivity.
      * split; [exact Hdb|].
        unfold post_send_one in Hone. rewrite (pop_some _ _ _ _ Hf) in Hone.
        cbv zeta in Hone. rewrite Hres, Hfill in Hone.
        inversion Hone. reflexivity.
Qed.

Lemma post_send_loop_app (pre rest : list ibv_send_wr) (qp qp1 : virtio_rdma_qp) :
  post_send_loop mem qp pre = Loop_done qp1 ->
  post_send_loop mem qp (pre ++ rest) = post_send_loop mem qp1 rest.
Proof.
  revert qp. induction pre as [|w pre IH]; intros qp; simpl.
  - intros Heq. now inversion Heq.
  - destruct (post_send_one mem qp w) as [q|rc q]; [apply IH | discriminate].
Qed.

(** A batch accepted in full is in the ring, in order. *)
Lemma post_send_loop_done (pre : list ibv_send_wr) (qp qp1 : virtio_rdma_qp) :
  post_send_loop mem qp pre = Loop_done qp1 ->
  exists pub,
    avail (sq qp1) = avail (sq qp) ++ pub
    /\ published_ids pub = map swr_id pre
    /\ doorbell (sq qp1) = doorbell (sq qp)
    /\ doorbell (rq qp1) = doorbell (rq qp).
Proof.
  revert qp. induction pre as [|w pre IH]; intros qp; simpl.
  - intros Heq. inversion Heq; subst. exists []. now rewrite app_nil_r.
  - destruct (post_send_one mem qp w) as [q|rc q] eqn:Hone; [|discriminate].
    intros Hloop. destruct (IH q Hloop) as [pub [Hav [Hids [Hdb Hdbr]]]].
    destruct (post_send_one_published qp q w Hone) as [e [n [Hav1 [Hid [Hdb1 Hdbr1]]]]].
    exists ((e, n) :: pub). split.
    + rewrite Hav, Hav1, <- app_assoc. reflexivity.
    + split; [|split; congruence]. unfold published_ids in *. simpl. now rewrite Hid, Hids.
Qed.

(** A batch that stops early splits into the requests accepted before and
    the suffix that starts at the request on which the loop was left. *)
Lemma post_send_loop_bail (wr wr' : list ibv_send_wr) (qp qp' : virtio_rdma_qp)
  (rc : Z) :
  post_send_loop mem qp wr = Loop_bail rc wr' qp' ->
  exists pre w rest qp1,
    wr = pre ++ wr' /\ wr' = w :: rest
    /\ post_send_loop mem qp pre = Loop_done qp1
    /\ post_send_one mem qp1 w = Bail rc qp'.
Proof.
  revert qp. induction wr as [|w next IH]; intros qp; simpl; [discriminate|].
  destruct (post_send_one mem qp w) as [q|rc0 q] eqn:Hone.
  - intros Hloop. destruct (IH q Hloop) as [pre [w' [rest [qp1 [-> [-> [Hpre Hbail]]]]]]].
    exists (w :: pre), w', rest, qp1. simpl. rewrite Hone. now repeat split.
  - intros Heq. inversion Heq; subst. exists [], w, next, qp. now repeat split.
Qed.

End PostSend.

Section PostRecv.
Context {H : Headers}.

Lemma post_recv_one_doorbell (qp qp' : virtio_rdma_qp) (w : ibv_recv_wr) :
  post_recv_one qp w = Published qp' ->
  doorbell (rq qp') = doorbell (rq qp) /\ doorbell (sq qp') = doorbell (sq qp).
Proof.
  unfold post_recv_one.
  destruct (vring_flist_pop (reclaim (rq qp))) as [[e|] r'] eqn:Hpop; [|discriminate].
  intros Heq. inversion Heq; subst. simpl. split; [|reflexivity].
  unfold vring_flist_pop in Hpop.
  destruct (flist (reclaim (rq qp))); [discriminate|].
  inversion Hpop; subst. simpl. apply reclaim_doorbell.
Qed.

Lemma post_recv_loop_done (wr : list ibv_recv_wr) (qp qp1 : virtio_rdma_qp) :
  post_recv_loop qp wr = Loop_done qp1 ->
  doorbell (rq qp1) = doorbell (rq qp) /\ doorbell (sq qp1) = doorbell (sq qp).
Proof.
  revert qp. induction wr as [|w next IH]; intros qp; simpl.
  - intros Heq. inversion Heq; subst. now split.
  - destruct (post_recv_one qp w) as [q|rc q] eqn:Hone; [|discriminate].
    intros Hloop. destruct (IH q Hloop) as [Hr Hs].
    destruct (post_recv_one_doorbell qp q w Hone) as [Hr1 Hs1].
    split; congruence.
Qed.

Lemma post_recv_loop_bail (wr wr' : list ibv_recv_wr) (qp qp' : virtio_rdma_qp)
  (rc : Z) :
  post_recv_loop qp wr = Loop_bail rc wr' qp' ->
  exists pre w rest qp1,
    wr = pre ++ wr' /\ wr' = w :: rest
    /\ post_recv_loop qp pre = Loop_done qp1
    /\ post_recv_one qp1 w = Bail rc qp'.
Proof.
  revert qp. induction wr as [|w next IH]; intros qp; simpl; [discriminate|].
  destruct (post_recv_one qp w) as [q|rc0 q] eqn:Hone.
  - intros Hloop. destruct (IH q Hloop) as [pre [w' [rest [qp1 [-> [-> [Hpre Hbail]]]]]]].
    exists (w :: pre), w', rest, qp1. simpl. rewrite Hone. now repeat split.
  - intros Heq. inversion Heq; subst. exists [], w, next, qp. now repeat split.
Qed.

End PostRecv.

(* ------------------------------------------------------------------ *)
(** ** The properties of the design document *)

(** C1: the pool invariant fails on the exits of [virtio_rdma_post_send]
    taken after the pop.  A reliable-connection queue pair of depth 4 is
    given one request with an opcode outside the switch: the call returns
    [-EOPNOTSUPP], and afterwards the free list and the ring together own 3
    of the 4 entries; nothing was published and nothing notified. *)
Theorem post_send_unsupported_loses_entry :
  let qp := sample_qp 2 4 1 true in
  let r := @virtio_rdma_post_send sample_headers sample_mem qp [atomic_wr] [] in
  pool_total (sq qp) = 4%nat
  /\ ret r = - @EOPNOTSUPP sample_headers
  /\ bad_wr r = [atomic_wr]
  /\ free_count (sq (qp_after r)) = 3%nat
  /\ posted_count (sq (qp_after r)) = 0%nat
  /\ pool_total (sq (qp_after r)) = 3%nat.
Proof. vm_compute. repeat split. Qed.

(** C3: when the free list is exhausted at a request of the batch, the
    call returns [-ENOMEM], [*bad_wr] is that request with the rest of the
    batch behind it, and the requests before it are in the ring, in
    order, behind what the ring already held. *)
Theorem post_send_stops_when_exhausted (H : Headers) (mem : Z -> Byte.byte)
  (qp qp1 : virtio_rdma_qp) (pre : list ibv_send_wr) (w : ibv_send_wr)
  (rest bad0 : list ibv_send_wr) :
  post_send_loop mem qp pre = Loop_done qp1 ->
  flist (reclaim (sq qp1)) = [] ->
  ret (virtio_rdma_post_send mem qp (pre ++ w :: rest) bad0) = - ENOMEM
  /\ bad_wr (virtio_rdma_post_send mem qp (pre ++ w :: rest) bad0) = w :: rest
  /\ exists pub,
       avail (sq (qp_after (virtio_rdma_post_send mem qp (pre ++ w :: rest) bad0)))
       = avail (sq qp) ++ pub
       /\ published_ids pub = map swr_id pre.
Proof.
  intros Hpre Hfree. unfold virtio_rdma_post_send.
  rewrite (post_send_loop_app mem pre (w :: rest) qp qp1 Hpre).
  cbn [post_send_loop]. rewrite (post_send_one_exhausted mem qp1 w Hfree).
  cbn [ret bad_wr qp_after]. split; [reflexivity|]. split; [reflexivity|].
  destruct (post_send_loop_done mem pre qp qp1 Hpre) as [pub [Hav [Hids _]]].
  exists pub. split; [|exact Hids].
  cbn [sq set_sq]. now rewrite reclaim_avail.
Qed.

(** Three requests on a send queue with one free slot: one is submitted,
    the second is reported. *)
Lemma post_send_stops_when_exhausted_witness :
  ret (@virtio_rdma_post_send sample_headers sample_mem (sample_qp 2 1 1 true)
         ([send_wr 1] ++ send_wr 2 :: [send_wr 3]) []) = - 12
  /\ bad_wr (@virtio_rdma_post_send sample_headers sample_mem (sample_qp 2 1 1 true)
         ([send_wr 1] ++ send_wr 2 :: [send_wr 3]) []) = [send_wr 2; send_wr 3]
  /\ exists pub,
       avail (sq (qp_after (@virtio_rdma_post_send sample_headers sample_mem
                              (sample_qp 2 1 1 true)
                              ([send_wr 1] ++ send_wr 2 :: [send_wr 3]) [])))
       = [] ++ pub
       /\ published_ids pub = [1].
Proof.
  exact (post_send_stops_when_exhausted sample_headers sample_mem
           (sample_qp 2 1 1 true)
           (loop_qp (@post_send_loop sample_headers sample_mem
                       (sample_qp 2 1 1 true) [send_wr 1]))
           [send_wr 1] (send_wr 2) [send_wr 3] [] eq_refl eq_refl).
Defined.

(** The two posting functions on the same kind of call: a queue pair of
    depth 2 accepts a batch of one request, and [*bad_wr], which held a
    stale pointer, is cleared by the send and kept by the receive. *)
Example bad_wr_after_accepted_batch :
  bad_wr (@virtio_rdma_post_send sample_headers sample_mem
            (sample_qp 2 2 1 true) [send_wr 1] [send_wr 9]) = []
  /\ bad_wr (@virtio_rdma_post_recv sample_headers
               (sample_qp 2 2 1 true) [recv_wr 1] [recv_wr 9]) = [recv_wr 9].
Proof. split; reflexivity. Qed.

(** C6, as stated, fails: a batch of three sends on a queue of depth 1
    publishes the first request and leaves through [out_err] without any
    notification; likewise two receives on a queue of depth 1. *)
Lemma post_stopped_early_notifies_nothing :
  events (@virtio_rdma_post_send sample_headers sample_mem
            (sample_qp 2 1 1 true) [send_wr 1; send_wr 2; send_wr 3] []) = []
  /\ published_ids
       (avail (sq (qp_after
          (@virtio_rdma_post_send sample_headers sample_mem
             (sample_qp 2 1 1 true) [send_wr 1; send_wr 2; send_wr 3] []))))
     = [1]
  /\ events (@virtio_rdma_post_recv sample_headers
               (sample_qp 2 1 1 true) [recv_wr 1; recv_wr 2] []) = []
  /\ length (avail (rq (qp_after
       (@virtio_rdma_post_recv sample_headers
          (sample_qp 2 1 1 true) [recv_wr 1; recv_wr 2] [])))) = 1%nat.
Proof. repeat split; reflexivity. Qed.

(** C6, amended: when every request of the batch is accepted, the call
    notifies the backend exactly once after the batch, whatever the length
    of the batch: through [vring_notify] when the queue has a doorbell,
    through [slow_doorbell] otherwise. *)
Theorem notify_once_after_accepted_batch (H : Headers) (mem : Z -> Byte.byte)
  (qp qs qr : virtio_rdma_qp) (swr sbad : list ibv_send_wr)
  (rwr rbad : list ibv_recv_wr) :
  post_send_loop mem qp swr = Loop_done qs ->
  post_recv_loop qp rwr = Loop_done qr ->
  events (virtio_rdma_post_send mem qp swr sbad)
  = [if doorbell (sq qp) then Ev_vring_notify true else Ev_slow_doorbell true]
  /\ events (virtio_rdma_post_recv qp rwr rbad)
     = [if doorbell (rq qp) then Ev_vring_notify false else Ev_slow_doorbell false].
Proof.
  intros Hs Hr. unfold virtio_rdma_post_send, virtio_rdma_post_recv.
  rewrite Hs, Hr. simpl.
  destruct (post_send_loop_done mem swr qp qs Hs) as [_ [_ [_ [-> _]]]].
  destruct (post_recv_loop_done rwr qp qr Hr) as [-> _].
  now split.
Qed.

(** Two sends and two receives on a queue pair of depth 2 with a doorbell:
    one doorbell write each. *)
Lemma notify_once_after_accepted_batch_witness :
  events (@virtio_rdma_post_send sample_headers sample_mem
            (sample_qp 2 2 1 true) [send_wr 1; send_wr 2] [])
  = [Ev_vring_notify true]
  /\ events (@virtio_rdma_post_recv sample_headers
               (sample_qp 2 2 1 true) [recv_wr 1; recv_wr 2] [])
     = [Ev_vring_notify false].
Proof.
  exact (notify_once_after_accepted_batch sample_headers sample_mem
           (sample_qp 2 2 1 true)
           (loop_qp (@post_send_loop sample_headers sample_mem
                       (sample_qp 2 2 1 true) [send_wr 1; send_wr 2]))
           (loop_qp (@post_recv_loop sample_headers
                       (sample_qp 2 2 1 true) [recv_wr 1; recv_wr 2]))
           [send_wr 1; send_wr 2] [] [recv_wr 1; recv_wr 2] []
           eq_refl eq_refl).
Defined.

(** Without a doorbell the one notification is the null command. *)
Example notify_once_without_doorbell :
  events (@virtio_rdma_post_send sample_headers sample_mem
            (sample_qp 2 2 1 false) [send_wr 1; send_wr 2] [])
  = [Ev_slow_doorbell true].
Proof. reflexivity. Qed.

Section CompletionQueue.
Context {H : Headers}.

Lemma prepost_loop_all (n : nat) (r : virtio_rdma_vring virtio_rdma_cq_req) :
  length (flist r) = n ->
  exists r',
    prepost_loop n r = Some r'
    /\ flist r' = []
    /\ avail r' = avail r ++ map (fun e => (e, sizeof_cq_req)) (flist r)
    /\ used r' = used r.
Proof.
  revert r. induction n as [|n IH]; intros r Hlen.
  - exists r. destruct (flist r) eqn:Hf; [|discriminate].
    simpl. now rewrite app_nil_r.
  - destruct (flist r) as [|e fl] eqn:Hf; [discriminate|].
    cbn [prepost_loop]. rewrite (pop_some _ _ _ _ Hf).
    match goal with |- context [prepost_loop n ?r1] =>
      destruct (IH r1) as [r' [Hrun [Hfl [Hav Hus]]]] end.
    + simpl in *. lia.
    + exists r'. split; [exact Hrun|]. split; [exact Hfl|].
      simpl in Hav, Hus. split; [|exact Hus].
      rewrite Hav. cbn [map]. now rewrite <- app_assoc.
Qed.

Lemma poll_nothing_used (cq : virtio_rdma_cq) (num_entries : Z) :
  used (vring cq) = [] -> virtio_rdma_poll_cq cq num_entries = (0, [], cq).
Proof.
  intros Hu. unfold virtio_rdma_poll_cq.
  assert (Hl : poll_loop (Z.to_nat num_entries) (vring cq) [] = ([], vring cq)).
  { destruct (Z.to_nat num_entries); [reflexivity|].
    simpl. unfold vring_get_one. now rewrite Hu. }
  rewrite Hl. now destruct cq.
Qed.

End CompletionQueue.

(** After the backend has completed one descriptor of a completion queue
    of depth 16, a poll for one entry returns it translated and hands the
    slot back to the ring. *)
Example poll_after_one_completion :
  match @virtio_rdma_create_cq sample_headers (sample_cq_env 16) with
  | Some cq =>
      let done := {| cq_wr_id := 42; cq_status := 0; cq_opcode := 0;
                     cq_vendor_err := 0; cq_byte_len := 8; cq_imm_data := 0;
                     cq_src_qp := 7; cq_wc_flags := 2 |} in
      let cq1 := {| num_cqe := num_cqe cq;
                    vring := backend_complete (fun _ => done) (vring cq) |} in
      let '(n, wc, cq2) := @virtio_rdma_poll_cq sample_headers cq1 1 in
      n = 1
      /\ map wc_wr_id wc = [42]
      /\ map wc_status wc = [@IBV_WC_SUCCESS sample_headers]
      /\ map wc_wc_flags wc = [@IBV_WC_WITH_IMM sample_headers]
      /\ free_count (vring cq2) = 0%nat
      /\ posted_count (vring cq2) = 16%nat
  | None => False
  end.
Proof. vm_compute. repeat split. Qed.

(** C9, as stated, fails: after the creation of a completion queue of
    depth 16 the free list is empty, not 16 entries long. *)
Lemma create_cq_free_list_not_full :
  match @virtio_rdma_create_cq sample_headers (sample_cq_env 16) with
  | Some cq => free_count (vring cq) = 0%nat /\ free_count (vring cq) <> 16%nat
  | None => False
  end.
Proof. vm_compute. split; [reflexivity | discriminate]. Qed.

(** C9, amended: right after the creation of a completion queue of depth
    N every one of the N entries has been handed to the backend through
    the ring, the free list holds none, and a poll before any backend
    activity fills no entry and returns 0. *)
Theorem create_cq_preposts_every_entry (H : Headers) (env : create_cq_env) :
  cmd_rc env = 0 -> mmap_failed env = false -> init_pool_rc env = 0 ->
  exists cq,
    virtio_rdma_create_cq env = Some cq
    /\ num_cqe cq = resp_num_cqe env
    /\ free_count (vring cq) = 0%nat
    /\ length (avail (vring cq)) = resp_num_cqe env
    /\ used (vring cq) = []
    /\ pool_total (vring cq) = resp_num_cqe env
    /\ virtio_rdma_poll_cq cq 1 = (0, [], cq).
Proof.
  intros Hcmd Hmap Hpool. unfold virtio_rdma_create_cq.
  rewrite Hcmd, Hmap, Hpool. simpl.
  destruct (prepost_loop_all (resp_num_cqe env)
              (vring_init_pool zero_cq_req false (resp_num_cqe env) sizeof_cq_req))
    as [r [Hrun [Hfl [Hav Hus]]]].
  { simpl. now rewrite length_map, length_seq. }
  rewrite Hrun. eexists. split; [reflexivity|]. simpl in *.
  assert (Hlen : length (avail r) = resp_num_cqe env).
  { rewrite Hav. now rewrite !length_map, length_seq. }
  split; [reflexivity|]. split; [unfold free_count; now rewrite Hfl|].
  split; [exact Hlen|]. split; [exact Hus|]. split.
  - unfold pool_total, free_count, posted_count. rewrite Hfl, Hus, Hlen. simpl. lia.
  - now apply poll_nothing_used.
Qed.

(** A completion queue of depth 16. *)
Lemma create_cq_preposts_every_entry_witness :
  exists cq,
    @virtio_rdma_create_cq sample_headers (sample_cq_env 16) = Some cq
    /\ num_cqe cq = 16%nat
    /\ free_count (vring cq) = 0%nat
    /\ length (avail (vring cq)) = 16%nat
    /\ used (vring cq) = []
    /\ pool_total (vring cq) = 16%nat
    /\ @virtio_rdma_poll_cq sample_headers cq 1 = (0, [], cq).
Proof.
  exact (create_cq_preposts_every_entry sample_headers (sample_cq_env 16)
           eq_refl eq_refl eq_refl).
Defined.

Section Addressing.
Context {H : Headers}.
Hypothesis Hok : headers_ok H.
Variable mem : Z -> Byte.byte.

Lemma opcode_groups_disjoint (opcode : Z) :
  send_opcode opcode = true -> rdma_opcode opcode = false.
Proof.
  pose proof (labels_distinct (ok_wr_opcode Hok)) as Hnd.
  unfold labels, virtio_wr_opcode_cases in Hnd. cbn [map fst] in Hnd.
  repeat match goal with
         | Hn : NoDup (_ :: _) |- _ =>
             let Ha := fresh "Ha" in let Hb := fresh "Hb" in
             apply NoDup_cons_iff in Hn; destruct Hn as [Ha Hb]
         end.
  cbn [In] in *. unfold send_opcode, rdma_opcode.
  rewrite orb_true_iff, !Z.eqb_eq. rewrite !orb_false_iff, !Z.eqb_neq.
  intros [->| ->]; repeat split; intros Heq; rewrite Heq in *; tauto.
Qed.

Lemma resolve_ud (t : Z) (w : ibv_send_wr) (req : virtio_rdma_sq_req) :
  t = IBV_QPT_UD ->
  resolve_address t w req
  = inr (set_sq_ud req (swr_ud_remote_qpn w) (swr_ud_remote_qkey w)
           (ah_num (swr_ud_ah w))).
Proof. intros ->. unfold resolve_address. now rewrite Z.eqb_refl. Qed.

Lemma resolve_rc (t : Z) (w : ibv_send_wr) (req : virtio_rdma_sq_req) :
  t = IBV_QPT_RC ->
  resolve_address t w req
  = if rdma_opcode (swr_opcode w) then
      inr (set_sq_rdma req (swr_rdma_remote_addr w) (swr_rdma_rkey w))
    else if send_opcode (swr_opcode w) then inr req
    else inl (- EOPNOTSUPP).
Proof.
  intros ->. unfold resolve_address.
  destruct (Z.eqb_spec IBV_QPT_RC IBV_QPT_UD) as [Heq|_].
  - exfalso. apply (ok_qp_types Hok). now symmetry.
  - now rewrite Z.eqb_refl.
Qed.

Lemma resolve_other (t : Z) (w : ibv_send_wr) (req : virtio_rdma_sq_req) :
  t <> IBV_QPT_UD -> t <> IBV_QPT_RC -> resolve_address t w req = inl (- EINVAL).
Proof.
  intros Hud Hrc. unfold resolve_address.
  destruct (Z.eqb_spec t IBV_QPT_UD); [contradiction|].
  destruct (Z.eqb_spec t IBV_QPT_RC); [contradiction|]. reflexivity.
Qed.

Lemma published_from_resolved (qp : virtio_rdma_qp) (w : ibv_send_wr)
  (e : virtio_rdma_buf_pool_entry virtio_rdma_sq_req)
  (fl : list (virtio_rdma_buf_pool_entry virtio_rdma_sq_req))
  (req1 : virtio_rdma_sq_req) (P : virtio_rdma_sq_req -> Prop) :
  flist (reclaim (sq qp)) = e :: fl ->
  resolve_address (qp_type qp) w (sq_header w (buf e)) = inr req1 ->
  (forall req', sq_ud_remote_qpn req' = sq_ud_remote_qpn req1 ->
                sq_ud_remote_qkey req' = sq_ud_remote_qkey req1 ->
                sq_ud_ah req' = sq_ud_ah req1 ->
                sq_rdma_remote_addr req' = sq_rdma_remote_addr req1 ->
                sq_rdma_rkey req' = sq_rdma_rkey req1 -> P req') ->
  published_with mem qp w P.
Proof.
  intros Hf Hres HP.
  destruct (post_send_one_ok mem qp w e fl req1 Hf Hres)
    as [qp' [req' [n [Hone [Hfill [Hav _]]]]]].
  exists qp', (set_buf e req'), (sizeof_sq_req + n).
  split; [exact Hone|]. split; [exact Hav|].
  destruct (fill_payload_fields mem w req1 req' _ n Hfill)
    as [_ [_ [_ [_ [_ [H1 [H2 [H3 [H4 H5]]]]]]]]].
  simpl. now apply HP.
Qed.

Lemma rejected_from_resolved (qp : virtio_rdma_qp) (w : ibv_send_wr)
  (e : virtio_rdma_buf_pool_entry virtio_rdma_sq_req)
  (fl : list (virtio_rdma_buf_pool_entry virtio_rdma_sq_req))
  (rest bad0 : list ibv_send_wr) (rc : Z) :
  flist (reclaim (sq qp)) = e :: fl ->
  resolve_address (qp_type qp) w (sq_header w (buf e)) = inl rc ->
  rejected_with mem qp w rest bad0 rc.
Proof.
  intros Hf Hres.
  destruct (post_send_one_bail mem qp w e fl rc Hf Hres) as [qp' [Hone [Hav _]]].
  unfold rejected_with, virtio_rdma_post_send. cbn [post_send_loop].
  rewrite Hone. simpl. now repeat split.
Qed.

End Addressing.

(** C4, as stated, fails: an RDMA write posted on an unreliable-datagram
    queue pair is accepted, published with the datagram addressing and
    notified; the call returns 0. *)
Lemma post_send_ud_accepts_rdma_write :
  let r := @virtio_rdma_post_send sample_headers sample_mem
             (sample_qp 4 2 1 false) [rdma_write_wr] [] in
  swr_opcode rdma_write_wr = @IBV_WR_RDMA_WRITE sample_headers
  /\ qp_type (sample_qp 4 2 1 false) = @IBV_QPT_UD sample_headers
  /\ ret r = 0
  /\ ret r <> - @EOPNOTSUPP sample_headers
  /\ ret r <> - @EINVAL sample_headers
  /\ bad_wr r = []
  /\ published_ids (avail (sq (qp_after r))) = [1]
  /\ events r = [Ev_slow_doorbell true].
Proof. vm_compute. repeat split; discriminate. Qed.

(** C4, amended: with a free entry at hand, a request on an
    unreliable-datagram queue pair is published with the remote queue-pair
    number, the remote key and the address-handle number, whatever its
    opcode; on a reliable-connection queue pair a request with an RDMA
    read or write opcode is published with the remote address and key, and
    a send is published with the addressing members of the slot untouched;
    on a reliable-connection queue pair any other opcode stops the call at
    that request with [-EOPNOTSUPP], and on any other transport every
    request stops it with [-EINVAL]. *)
Theorem post_send_addressing (H : Headers) (Hok : headers_ok H)
  (mem : Z -> Byte.byte) (qp : virtio_rdma_qp) (w : ibv_send_wr)
  (e : virtio_rdma_buf_pool_entry virtio_rdma_sq_req)
  (fl : list (virtio_rdma_buf_pool_entry virtio_rdma_sq_req))
  (rest bad0 : list ibv_send_wr) :
  flist (reclaim (sq qp)) = e :: fl ->
  (qp_type qp = IBV_QPT_UD ->
     published_with mem qp w (fun req => carries_ud w req /\ same_rdma (buf e) req))
  /\ (qp_type qp = IBV_QPT_RC -> rdma_opcode (swr_opcode w) = true ->
     published_with mem qp w (fun req => carries_rdma w req /\ same_ud (buf e) req))
  /\ (qp_type qp = IBV_QPT_RC -> send_opcode (swr_opcode w) = true ->
     published_with mem qp w (fun req => same_rdma (buf e) req /\ same_ud (buf e) req))
  /\ (qp_type qp = IBV_QPT_RC ->
      rdma_opcode (swr_opcode w) = false -> send_opcode (swr_opcode w) = false ->
     rejected_with mem qp w rest bad0 (- EOPNOTSUPP))
  /\ (qp_type qp <> IBV_QPT_UD -> qp_type qp <> IBV_QPT_RC ->
     rejected_with mem qp w rest bad0 (- EINVAL)).
Proof.
  intros Hf. split; [|split; [|split; [|split]]].
  - intros Hud.
    apply (published_from_resolved mem qp w e fl _ _ Hf (resolve_ud _ w _ Hud));
      intros req' H1 H2 H3 H4 H5; unfold carries_ud, same_rdma;
      rewrite H1, H2, H3, H4, H5; simpl; now repeat split.
  - intros Hrc Hop. pose proof (resolve_rc Hok _ w (sq_header w (buf e)) Hrc) as Hres.
    rewrite Hop in Hres.
    apply (published_from_resolved mem qp w e fl _ _ Hf Hres);
      intros req' H1 H2 H3 H4 H5; unfold carries_rdma, same_ud;
      rewrite H1, H2, H3, H4, H5; simpl; now repeat split.
  - intros Hrc Hop. pose proof (resolve_rc Hok _ w (sq_header w (buf e)) Hrc) as Hres.
    rewrite (opcode_groups_disjoint Hok _ Hop), Hop in Hres.
    apply (published_from_resolved mem qp w e fl _ _ Hf Hres);
      intros req' H1 H2 H3 H4 H5; unfold same_rdma, same_ud;
      rewrite H1, H2, H3, H4, H5; simpl; now repeat split.
  - intros Hrc Hop1 Hop2.
    pose proof (resolve_rc Hok _ w (sq_header w (buf e)) Hrc) as Hres.
    rewrite Hop1, Hop2 in Hres.
    exact (rejected_from_resolved mem qp w e fl rest bad0 _ Hf Hres).
  - intros Hud Hrc.
    exact (rejected_from_resolved mem qp w e fl rest bad0 _ Hf
             (resolve_other _ w _ Hud Hrc)).
Qed.

(** An RDMA write on an unreliable-datagram queue pair, an RDMA write and
    a send on a reliable-connection queue pair, an atomic request on a
    reliable-connection queue pair, and a send on an unreliable-connection
    queue pair (transport 3). *)
Lemma post_send_addressing_witness :
  @published_with sample_headers sample_mem (sample_qp 4 2 1 false) rdma_write_wr
    (fun req => carries_ud rdma_write_wr req
                /\ same_rdma (buf (sample_entry 0 64)) req)
  /\ @published_with sample_headers sample_mem (sample_qp 2 2 1 false) rdma_write_wr
    (fun req => carries_rdma rdma_write_wr req
                /\ same_ud (buf (sample_entry 0 64)) req)
  /\ @published_with sample_headers sample_mem (sample_qp 2 2 1 false) (send_wr 1)
    (fun req => same_rdma (buf (sample_entry 0 64)) req
                /\ same_ud (buf (sample_entry 0 64)) req)
  /\ @rejected_with sample_headers sample_mem (sample_qp 2 2 1 false) atomic_wr
       [send_wr 2] [] (- 95)
  /\ @rejected_with sample_headers sample_mem (sample_qp 3 2 1 false) (send_wr 1)
       [send_wr 2] [] (- 22).
Proof.
  split; [|split; [|split; [|split]]].
  - apply (post_send_addressing sample_headers sample_headers_ok sample_mem
             (sample_qp 4 2 1 false) rdma_write_wr
             (sample_entry 0 64) [sample_entry 1 64] [] [] eq_refl).
    reflexivity.
  - apply (post_send_addressing sample_headers sample_headers_ok sample_mem
             (sample_qp 2 2 1 false) rdma_write_wr
             (sample_entry 0 64) [sample_entry 1 64] [] [] eq_refl);
      reflexivity.
  - apply (post_send_addressing sample_headers sample_headers_ok sample_mem
             (sample_qp 2 2 1 false) (send_wr 1)
             (sample_entry 0 64) [sample_entry 1 64] [] [] eq_refl);
      reflexivity.
  - apply (post_send_addressing sample_headers sample_headers_ok sample_mem
             (sample_qp 2 2 1 false) atomic_wr
             (sample_entry 0 64) [sample_entry 1 64] [send_wr 2] [] eq_refl);
      reflexivity.
  - apply (post_send_addressing sample_headers sample_headers_ok sample_mem
             (sample_qp 3 2 1 false) (send_wr 1)
             (sample_entry 0 64) [sample_entry 1 64] [send_wr 2] [] eq_refl);
      discriminate.
Defined.

(** C5: the published length is not kept within the slot.  A queue pair
    created with at most one scatter-gather element per request has slots
    of 64 bytes (send) and 32 bytes (receive); a request with two elements
    is accepted in either direction and published with 80 and 48 bytes. *)
Theorem post_record_exceeds_entry_size :
  let qp := sample_qp 2 2 1 false in
  let s := @virtio_rdma_post_send sample_headers sample_mem qp [two_sge_wr] [] in
  let r := @virtio_rdma_post_recv sample_headers qp [two_sge_recv_wr] [] in
  @virtio_rdma_create_qp sample_headers (sample_qp_env 2 2 1 false) = Some qp
  /\ num_sq_sge qp = 1 /\ swr_num_sge two_sge_wr = 2
  /\ num_rq_sge qp = 1 /\ rwr_num_sge two_sge_recv_wr = 2
  /\ ret s = 0 /\ sizes (avail (sq (qp_after s))) = [(64, 80)]
  /\ ret r = 0 /\ sizes (avail (rq (qp_after r))) = [(32, 48)].
Proof. vm_compute. repeat split. Qed.

Section Inline.
Context {H : Headers}.
Variable mem : Z -> Byte.byte.



(** The descriptor branch of the payload step keeps [sgl_len]. *)
Lemma fill_payload_sgl (w : ibv_send_wr) (req : virtio_rdma_sq_req)
  (sgl_len : Z) :
  inline_flag_set w = false ->
  snd (fill_payload mem w req sgl_len) = sgl_len.
Proof. intros Hflag. unfold fill_payload. now rewrite Hflag. Qed.

(** No comparison with the negotiated scatter-gather limit is made: a
    request without the inline flag that has more elements than the limit
    is published with a length beyond the size of its slot, when the slot
    has the size [virtio_rdma_create_qp] gives it. *)
Lemma post_send_length_exceeds_slot (qp qp' : virtio_rdma_qp) (w : ibv_send_wr)
  (e : virtio_rdma_buf_pool_entry virtio_rdma_sq_req)
  (fl : list (virtio_rdma_buf_pool_entry virtio_rdma_sq_req)) :
  0 < sizeof_sge ->
  flist (reclaim (sq qp)) = e :: fl ->
  len e = sizeof_sq_req + num_sq_sge qp * sizeof_sge ->
  inline_flag_set w = false ->
  num_sq_sge qp < swr_num_sge w ->
  sizeof_sge * swr_num_sge w < 2 ^ 32 ->
  post_send_one mem qp w = Published qp' ->
  exists e' n,
    avail (sq qp') = avail (sq qp) ++ [(e', n)]
    /\ index e' = index e /\ len e' = len e /\ len e' < n.
Proof.
  intros Hsz Hf Hlen Hflag Hmore Hfit Hone.
  destruct (resolve_address (qp_type qp) w (sq_header w (buf e)))
    as [rc|req1] eqn:Hres.
  { destruct (post_send_one_bail mem qp w e fl rc Hf Hres) as [q [Hb _]].
    rewrite Hb in Hone. discriminate. }
  destruct (post_send_one_ok mem qp w e fl req1 Hf Hres)
    as [q [req' [n [Hp [Hfill [Hav _]]]]]].
  rewrite Hp in Hone. inversion Hone; subst q.
  exists (set_buf e req'), (sizeof_sq_req + n).
  split; [exact Hav|]. split; [reflexivity|]. split; [reflexivity|].
  pose proof (fill_payload_sgl w req1 (u32 (sizeof_sge * swr_num_sge w)) Hflag) as Hn.
  rewrite Hfill in Hn. simpl in Hn. subst n. simpl. rewrite Hlen.
  unfold u32. rewrite Z.mod_small.
  - nia.
  - split; [|exact Hfit]. unfold swr_num_sge. nia.
Qed.

End Inline.



(* ------------------------------------------------------------------ *)
(** ** Polling *)

Section Poll.
Context {H : Headers}.

Lemma poll_loop_spec (n : nat) (r : virtio_rdma_vring virtio_rdma_cq_req)
  (wc : list ibv_wc) :
  poll_loop n r wc =
  (wc ++ map (fun e => decode_cq_req (buf e)) (firstn n (used r)),
   {| flist := flist r;
      avail := avail r ++ map (fun e => (e, len e)) (firstn n (used r));
      used := skipn n (used r);
      doorbell := doorbell r |}).
Proof.
  revert r wc. induction n as [|n IH]; intros [fl av us db] wc.
  - simpl. now rewrite !app_nil_r.
  - cbn [poll_loop]. unfold vring_get_one. cbn [used flist avail doorbell].
    destruct us as [|e us].
    + simpl. now rewrite !app_nil_r.
    + rewrite IH. unfold vring_add_one. cbn [used flist avail doorbell firstn skipn map].
      now rewrite <- !app_assoc.
Qed.

Lemma firstn_add (A : Type) (a b : nat) (l : list A) :
  firstn (a + b) l = firstn a l ++ firstn b (skipn a l).
Proof.
  revert l. induction a as [|a IH]; intros l; [reflexivity|].
  destruct l as [|x l]; simpl.
  - now rewrite firstn_nil.
  - now rewrite IH.
Qed.

End Poll.

(** X1: [virtio_rdma_poll_cq] returns the smaller of the number of entries
    asked for (none when [num_entries] is not positive) and the number of
    descriptors the backend has returned, and fills that many entries. *)
Theorem poll_cq_count (H : Headers) (cq : virtio_rdma_cq) (num_entries : Z) :
  fst (fst (virtio_rdma_poll_cq cq num_entries))
  = Z.min (Z.max 0 num_entries) (Z.of_nat (length (used (vring cq))))
  /\ Z.of_nat (length (snd (fst (virtio_rdma_poll_cq cq num_entries))))
     = fst (fst (virtio_rdma_poll_cq cq num_entries)).
Proof.
  unfold virtio_rdma_poll_cq. rewrite poll_loop_spec. cbn [fst snd app].
  rewrite length_map, length_firstn. split; [lia | reflexivity].
Qed.

(** X2: the entries [virtio_rdma_poll_cq] fills are the decoded records of
    the oldest returned descriptors, in the order the backend returned
    them; the descriptors not asked for stay returned, in order. *)
Theorem poll_cq_fifo (H : Headers) (cq : virtio_rdma_cq) (num_entries : Z) :
  snd (fst (virtio_rdma_poll_cq cq num_entries))
  = map (fun e => decode_cq_req (buf e))
      (firstn (Z.to_nat num_entries) (used (vring cq)))
  /\ used (vring (snd (virtio_rdma_poll_cq cq num_entries)))
     = skipn (Z.to_nat num_entries) (used (vring cq)).
Proof.
  unfold virtio_rdma_poll_cq. rewrite poll_loop_spec. now split.
Qed.

(** X3: every slot [virtio_rdma_poll_cq] has read goes straight back to
    the ring, unchanged and with its slot size as length, behind what the
    ring held; the free list, the capacity and the doorbell are not
    touched; and the slot indices the queue owns are the same list. *)
Theorem poll_cq_recycles (H : Headers) (cq : virtio_rdma_cq) (num_entries : Z) :
  avail (vring (snd (virtio_rdma_poll_cq cq num_entries)))
  = avail (vring cq)
    ++ map (fun e => (e, len e)) (firstn (Z.to_nat num_entries) (used (vring cq)))
  /\ flist (vring (snd (virtio_rdma_poll_cq cq num_entries))) = flist (vring cq)
  /\ doorbell (vring (snd (virtio_rdma_poll_cq cq num_entries)))
     = doorbell (vring cq)
  /\ num_cqe (snd (virtio_rdma_poll_cq cq num_entries)) = num_cqe cq
  /\ owned_indices (vring (snd (virtio_rdma_poll_cq cq num_entries)))
     = owned_indices (vring cq).
Proof.
  unfold virtio_rdma_poll_cq. rewrite poll_loop_spec. cbn [fst snd vring num_cqe].
  repeat split. unfold owned_indices. cbn [flist avail used].
  rewrite map_app, map_map. cbn [fst]. rewrite <- !app_assoc. do 2 f_equal.
  rewrite <- map_app. now rewrite firstn_skipn.
Qed.

(** X4: polling in two batches is polling once for the sum: the entries
    of the second poll follow those of the first, the counts add up, and
    the completion queue ends in the same state. *)
Theorem poll_cq_batches (H : Headers) (cq : virtio_rdma_cq) (a b : Z) :
  0 <= a -> 0 <= b ->
  virtio_rdma_poll_cq cq (a + b)
  = (fst (fst (virtio_rdma_poll_cq cq a))
     + fst (fst (virtio_rdma_poll_cq (snd (virtio_rdma_poll_cq cq a)) b)),
     snd (fst (virtio_rdma_poll_cq cq a))
     ++ snd (fst (virtio_rdma_poll_cq (snd (virtio_rdma_poll_cq cq a)) b)),
     snd (virtio_rdma_poll_cq (snd (virtio_rdma_poll_cq cq a)) b)).
Proof.
  intros Ha Hb. unfold virtio_rdma_poll_cq. rewrite !poll_loop_spec.
  cbn [fst snd vring num_cqe used avail flist doorbell app].
  rewrite Z2Nat.inj_add by assumption.
  rewrite firstn_add, skipn_skipn, !map_app, !length_app, <- !app_assoc.
  rewrite Nat2Z.inj_add. f_equal. f_equal. f_equal. f_equal.
  apply Nat.add_comm.
Qed.

(** Two polls for one entry each on a queue with three completions are
    one poll for two. *)
Lemma poll_cq_batches_witness :
  @virtio_rdma_poll_cq sample_headers (sample_cq 4 [11; 12; 13]) (1 + 1)
  = (fst (fst (@virtio_rdma_poll_cq sample_headers (sample_cq 4 [11; 12; 13]) 1))
     + fst (fst (@virtio_rdma_poll_cq sample_headers
                   (snd (@virtio_rdma_poll_cq sample_headers
                           (sample_cq 4 [11; 12; 13]) 1)) 1)),
     snd (fst (@virtio_rdma_poll_cq sample_headers (sample_cq 4 [11; 12; 13]) 1))
     ++ snd (fst (@virtio_rdma_poll_cq sample_headers
                    (snd (@virtio_rdma_poll_cq sample_headers
                            (sample_cq 4 [11; 12; 13]) 1)) 1)),
     snd (@virtio_rdma_poll_cq sample_headers
            (snd (@virtio_rdma_poll_cq sample_headers
                    (sample_cq 4 [11; 12; 13]) 1)) 1)).
Proof.
  apply (poll_cq_batches sample_headers (sample_cq 4 [11; 12; 13]) 1 1); lia.
Defined.

(** The ids come out oldest first. *)
Example poll_cq_order :
  map wc_wr_id
    (snd (fst (@virtio_rdma_poll_cq sample_headers (sample_cq 4 [11; 12; 13]) 2)))
  = [11; 12].
Proof. reflexivity. Qed.

(* ------------------------------------------------------------------ *)
(** ** Posting receives *)

Section Recv.
Context {H : Headers}.

(** One iteration of the receive loop: it takes the oldest free entry, or
    else the oldest returned one, and moves every returned descriptor to
    the free list. *)
Lemma post_recv_one_spec (qp : virtio_rdma_qp) (w : ibv_recv_wr) :
  post_recv_one qp w =
  match flist (rq qp) ++ used (rq qp) with
  | [] => Bail (- ENOMEM) (set_rq qp (reclaim (rq qp)))
  | e :: rest =>
      Published
        (set_rq qp
           {| flist := rest;
              avail := avail (rq qp)
                       ++ [(set_buf e
                              {| rq_wr_id := rwr_id w;
                                 rq_num_sge := rwr_num_sge w;
                                 rq_sg_list :=
                                   memcpy_sgl (rq_sg_list (buf e)) (rwr_sg_list w)
                                     (u32 (sizeof_sge * rwr_num_sge w)) sizeof_sge |},
                            sizeof_rq_req + u32 (sizeof_sge * rwr_num_sge w))];
              used := [];
              doorbell := doorbell (rq qp) |})
  end.
Proof.
  unfold post_recv_one. rewrite reclaim_spec.
  unfold vring_flist_pop. cbn [flist avail used doorbell].
  destruct (flist (rq qp) ++ used (rq qp)) as [|e rest] eqn:Hl.
  - reflexivity.
  - reflexivity.
Qed.


(** The whole loop: it accepts as many requests as entries can be taken
    and stops with [-ENOMEM] at the next one. *)
Lemma post_recv_loop_spec (wr : list ibv_recv_wr) (qp : virtio_rdma_qp) :
  exists qp' pub,
    post_recv_loop qp wr
    = (if (length wr <=? takeable (rq qp))%nat then Loop_done qp'
       else Loop_bail (- ENOMEM) (skipn (takeable (rq qp)) wr) qp')
    /\ avail (rq qp') = avail (rq qp) ++ pub
    /\ published_recv_ids pub = map rwr_id (firstn (takeable (rq qp)) wr)
    /\ doorbell (rq qp') = doorbell (rq qp).
Proof.
  revert qp. induction wr as [|w next IH]; intros qp.
  - exists qp, []. simpl. rewrite app_nil_r, firstn_nil. now repeat split.
  - cbn [post_recv_loop]. rewrite post_recv_one_spec.
    unfold takeable. rewrite <- length_app.
    destruct (flist (rq qp) ++ used (rq qp)) as [|e rest] eqn:Hl.
    + exists (set_rq qp (reclaim (rq qp))), []. simpl.
      rewrite reclaim_avail, reclaim_doorbell, app_nil_r. now repeat split.
    + match goal with |- context [post_recv_loop ?q next] =>
        destruct (IH q) as [qp' [pub [Hloop [Hav [Hids Hdb]]]]] end.
      unfold takeable in Hloop, Hids. cbn [rq set_rq flist used length] in Hloop, Hids.
      rewrite Nat.add_0_r in Hloop, Hids.
      cbn [rq set_rq avail doorbell] in Hav, Hdb.
      eexists qp', (_ :: pub). split; [|split; [|split]].
      * cbn [length skipn Nat.leb]. exact Hloop.
      * rewrite Hav, <- app_assoc. reflexivity.
      * cbn [length firstn map]. unfold published_recv_ids in *.
        cbn [map fst buf set_buf rq_wr_id]. now rewrite Hids.
      * exact Hdb.
Qed.

Lemma reclaim_owned (A : Type) (r : virtio_rdma_vring A) :
  Permutation (owned_indices (reclaim r)) (owned_indices r).
Proof.
  rewrite reclaim_spec. unfold owned_indices. cbn [flist avail used map].
  rewrite app_nil_r, map_app, <- app_assoc.
  apply Permutation_app_head. apply Permutation_app_comm.
Qed.

(** Taking the head of free list and returned descriptors and publishing
    a slot of the same index keeps the owned indices. *)
Lemma take_publish_owned (A : Type) (r : virtio_rdma_vring A)
  (e e' : virtio_rdma_buf_pool_entry A)
  (rest : list (virtio_rdma_buf_pool_entry A)) (n : Z) :
  flist r ++ used r = e :: rest -> index e' = index e ->
  Permutation
    (owned_indices {| flist := rest; avail := avail r ++ [(e', n)];
                      used := []; doorbell := doorbell r |})
    (owned_indices r).
Proof.
  intros Hl Hi. unfold owned_indices. cbn [flist avail used map].
  rewrite app_nil_r, map_app. cbn [map fst]. rewrite Hi.
  apply Permutation_trans with
    (map (fun e0 => index e0) (flist r ++ used r)
     ++ map (fun d => index (fst d)) (avail r)).
  - rewrite Hl. cbn [map app]. rewrite app_assoc.
    apply Permutation_sym, Permutation_cons_append.
  - rewrite map_app, <- app_assoc. apply Permutation_app_head.
    apply Permutation_app_comm.
Qed.

Lemma post_recv_one_owned (qp : virtio_rdma_qp) (w : ibv_recv_wr) :
  match post_recv_one qp w with
  | Published qp' | Bail _ qp' =>
      Permutation (owned_indices (rq qp')) (owned_indices (rq qp))
      /\ sq qp' = sq qp /\ qp_type qp' = qp_type qp
  end.
Proof.
  rewrite post_recv_one_spec.
  destruct (flist (rq qp) ++ used (rq qp)) as [|e rest] eqn:Hl.
  - cbn [rq set_rq sq qp_type]. split; [apply reclaim_owned | now split].
  - cbn [rq set_rq sq qp_type]. split; [|now split].
    apply (take_publish_owned _ (rq qp) e _ rest _ Hl). reflexivity.
Qed.

Lemma post_recv_loop_owned (wr : list ibv_recv_wr) (qp : virtio_rdma_qp) :
  Permutation (owned_indices (rq (loop_qp (post_recv_loop qp wr))))
    (owned_indices (rq qp))
  /\ sq (loop_qp (post_recv_loop qp wr)) = sq qp
  /\ qp_type (loop_qp (post_recv_loop qp wr)) = qp_type qp.
Proof.
  revert qp. induction wr as [|w next IH]; intros qp; cbn [post_recv_loop].
  - simpl. now repeat split.
  - pose proof (post_recv_one_owned qp w) as Hone.
    destruct (post_recv_one qp w) as [q|rc q].
    + destruct Hone as [Hp [Hs Ht]]. destruct (IH q) as [Hp' [Hs' Ht']].
      split; [|split; congruence].
      now apply Permutation_trans with (owned_indices (rq q)).
    + exact Hone.
Qed.

End Recv.

(** X5: [virtio_rdma_post_recv] accepts as many requests as it can take
    entries, counting the free ones and those the backend has returned.
    A batch within that number is accepted in full (return 0, [*bad_wr]
    untouched, one notification); a longer one returns [-ENOMEM] with
    [*bad_wr] at the first request beyond it and no notification.  In
    both cases the accepted requests are in the ring, in order. *)
Theorem post_recv_capacity (H : Headers) (qp : virtio_rdma_qp)
  (wr bad0 : list ibv_recv_wr) :
  ret (virtio_rdma_post_recv qp wr bad0)
  = (if (length wr <=? takeable (rq qp))%nat then 0 else - ENOMEM)
  /\ bad_wr (virtio_rdma_post_recv qp wr bad0)
     = (if (length wr <=? takeable (rq qp))%nat then bad0
        else skipn (takeable (rq qp)) wr)
  /\ events (virtio_rdma_post_recv qp wr bad0)
     = (if (length wr <=? takeable (rq qp))%nat then
          [if doorbell (rq qp) then Ev_vring_notify false
           else Ev_slow_doorbell false]
        else [])
  /\ exists pub,
       avail (rq (qp_after (virtio_rdma_post_recv qp wr bad0)))
       = avail (rq qp) ++ pub
       /\ published_recv_ids pub = map rwr_id (firstn (takeable (rq qp)) wr).
Proof.
  destruct (post_recv_loop_spec wr qp) as [qp' [pub [Hloop [Hav [Hids Hdb]]]]].
  unfold virtio_rdma_post_recv. rewrite Hloop.
  destruct (length wr <=? takeable (rq qp))%nat; cbn [ret bad_wr events qp_after].
  - rewrite Hdb. repeat split. now exists pub.
  - repeat split. now exists pub.
Qed.

(** Three receives on a queue of depth 2: two accepted, the third
    reported. *)
Example post_recv_over_capacity :
  let r := @virtio_rdma_post_recv sample_headers (sample_qp 2 2 1 true)
             [recv_wr 1; recv_wr 2; recv_wr 3] [] in
  ret r = - 12 /\ bad_wr r = [recv_wr 3]
  /\ published_recv_ids (avail (rq (qp_after r))) = [1; 2].
Proof. vm_compute. repeat split. Qed.



(** X7: [virtio_rdma_post_recv] neither loses nor duplicates a slot,
    whether it accepts the batch or stops early: the slot indices owned
    by free list, ring and returned descriptors afterwards are a
    permutation of those before, so indices that were distinct stay
    distinct; and the send queue and the transport are left alone. *)
Theorem post_recv_keeps_slots (H : Headers) (qp : virtio_rdma_qp)
  (wr bad0 : list ibv_recv_wr) :
  Permutation (owned_indices (rq (qp_after (virtio_rdma_post_recv qp wr bad0))))
    (owned_indices (rq qp))
  /\ (NoDup (owned_indices (rq qp)) ->
      NoDup (owned_indices (rq (qp_after (virtio_rdma_post_recv qp wr bad0)))))
  /\ sq (qp_after (virtio_rdma_post_recv qp wr bad0)) = sq qp
  /\ qp_type (qp_after (virtio_rdma_post_recv qp wr bad0)) = qp_type qp.
Proof.
  destruct (post_recv_loop_owned wr qp) as [Hp [Hs Ht]].
  assert (Hq : qp_after (virtio_rdma_post_recv qp wr bad0)
               = loop_qp (post_recv_loop qp wr)).
  { unfold virtio_rdma_post_recv. now destruct (post_recv_loop qp wr). }
  rewrite Hq. split; [exact Hp|]. split; [|now split].
  intros Hnd. apply (Permutation_NoDup (Permutation_sym Hp) Hnd).
Qed.

(* ------------------------------------------------------------------ *)
(** ** Posting sends, further *)

Section Send.
Context {H : Headers}.
Variable mem : Z -> Byte.byte.

(** What a published request went through. *)
Lemma post_send_one_inv (qp qp' : virtio_rdma_qp) (w : ibv_send_wr) :
  post_send_one mem qp w = Published qp' ->
  exists e fl req1 req' n,
    flist (sq qp) ++ used (sq qp) = e :: fl
    /\ resolve_address (qp_type qp) w (sq_header w (buf e)) = inr req1
    /\ fill_payload mem w req1 (u32 (sizeof_sge * swr_num_sge w)) = (req', n)
    /\ qp' = set_sq qp
               {| flist := fl;
                  avail := avail (sq qp) ++ [(set_buf e req', sizeof_sq_req + n)];
                  used := [];
                  doorbell := doorbell (sq qp) |}.
Proof.
  unfold post_send_one. rewrite reclaim_spec.
  unfold vring_flist_pop. cbn [flist avail used doorbell].
  destruct (flist (sq qp) ++ used (sq qp)) as [|e fl] eqn:Hl; [discriminate|].
  cbv zeta.
  destruct (resolve_address (qp_type qp) w (sq_header w (buf e)))
    as [rc|req1] eqn:Hres; [discriminate|].
  destruct (fill_payload mem w req1 (u32 (sizeof_sge * swr_num_sge w)))
    as [req' n] eqn:Hfill.
  intros Heq. inversion Heq; subst.
  exists e, fl, req1, req', n. now repeat split.
Qed.

(** The address switch writes addressing members only. *)
Lemma resolve_address_rest (t : Z) (w : ibv_send_wr)
  (req req1 : virtio_rdma_sq_req) :
  resolve_address t w req = inr req1 ->
  sq_wr_id req1 = sq_wr_id req
  /\ sq_num_sge req1 = sq_num_sge req
  /\ sq_send_flags req1 = sq_send_flags req
  /\ sq_opcode req1 = sq_opcode req
  /\ sq_imm_data req1 = sq_imm_data req
  /\ sq_inline_len req1 = sq_inline_len req
  /\ sq_inline_data req1 = sq_inline_data req
  /\ sq_sg_list req1 = sq_sg_list req.
Proof.
  unfold resolve_address.
  repeat match goal with
         | |- (if ?c then _ else _) = _ -> _ => destruct c
         end; intros Heq; inversion Heq; subst; simpl; now repeat split.
Qed.

Lemma post_send_one_owned (qp qp' : virtio_rdma_qp) (w : ibv_send_wr) :
  post_send_one mem qp w = Published qp' ->
  Permutation (owned_indices (sq qp')) (owned_indices (sq qp))
  /\ rq qp' = rq qp /\ qp_type qp' = qp_type qp.
Proof.
  intros Hone.
  destruct (post_send_one_inv qp qp' w Hone)
    as [e [fl [req1 [req' [n [Hl [_ [_ ->]]]]]]]].
  cbn [sq set_sq rq qp_type]. split; [|now split].
  apply (take_publish_owned _ (sq qp) e _ fl _ Hl). reflexivity.
Qed.

Lemma post_send_loop_owned (wr : list ibv_send_wr) (qp qp' : virtio_rdma_qp) :
  post_send_loop mem qp wr = Loop_done qp' ->
  Permutation (owned_indices (sq qp')) (owned_indices (sq qp))
  /\ rq qp' = rq qp /\ qp_type qp' = qp_type qp.
Proof.
  revert qp. induction wr as [|w next IH]; intros qp; cbn [post_send_loop].
  - intros Heq. inversion Heq; subst. now repeat split.
  - destruct (post_send_one mem qp w) as [q|rc q] eqn:Hone; [|discriminate].
    intros Hloop. destruct (IH q Hloop) as [Hp [Hr Ht]].
    destruct (post_send_one_owned qp q w Hone) as [Hp1 [Hr1 Ht1]].
    split; [|split; congruence].
    now apply Permutation_trans with (owned_indices (sq q)).
Qed.

End Send.

(** X8: the wire record of every published send request, with or without
    the inline flag, has the id and the immediate data of the request, its
    scatter-gather count, and the send flags and the opcode as the two
    translation functions give them for the whole flags word and the
    opcode. *)
Theorem post_send_header (H : Headers) (mem : Z -> Byte.byte)
  (qp qp' : virtio_rdma_qp) (w : ibv_send_wr) :
  post_send_one mem qp w = Published qp' ->
  exists e n,
    avail (sq qp') = avail (sq qp) ++ [(e, n)]
    /\ sq_wr_id (buf e) = swr_id w
    /\ sq_imm_data (buf e) = swr_imm_data w
    /\ sq_num_sge (buf e) = swr_num_sge w
    /\ sq_send_flags (buf e) = to_virtio_send_flags (swr_send_flags w)
    /\ sq_opcode (buf e) = to_virtio_wr_opcode (swr_opcode w).
Proof.
  intros Hone.
  destruct (post_send_one_inv mem qp qp' w Hone)
    as [e [fl [req1 [req' [n [_ [Hres [Hfill ->]]]]]]]].
  exists (set_buf e req'), (sizeof_sq_req + n).
  split; [reflexivity|]. cbn [buf set_buf].
  destruct (fill_payload_fields mem w req1 req' _ n Hfill)
    as [-> [-> [-> [-> [-> _]]]]].
  destruct (resolve_address_rest _ _ _ _ Hres) as [-> [-> [-> [-> [-> _]]]]].
  now repeat split.
Qed.

(** A send with the inline flag alone and two fragments: the header says
    two elements and the wire flag of the inline flag. *)
Lemma post_send_header_witness :
  exists e n,
    avail (sq (loop_qp (@post_send_loop sample_headers sample_mem
                          (sample_qp 2 2 1 false) [inline_wr])))
    = [] ++ [(e, n)]
    /\ sq_wr_id (buf e) = 1
    /\ sq_imm_data (buf e) = 0
    /\ sq_num_sge (buf e) = 2
    /\ sq_send_flags (buf e) = 8
    /\ sq_opcode (buf e) = 2.
Proof.
  exact (post_send_header sample_headers sample_mem (sample_qp 2 2 1 false)
           (loop_qp (@post_send_loop sample_headers sample_mem
                       (sample_qp 2 2 1 false) [inline_wr]))
           inline_wr eq_refl).
Defined.



Example post_send_stale_inline_len :
  map (fun d => sq_inline_len (buf (fst d)))
    (avail (sq (qp_after (@virtio_rdma_post_send sample_headers sample_mem
       (after_backend 1
          (qp_after (@virtio_rdma_post_send sample_headers sample_mem
                       (sample_qp 2 1 2 false) [inline_wr] [])))
       [two_sge_wr] []))))
  = [8].
Proof. reflexivity. Qed.

(** X10: a batch [virtio_rdma_post_send] accepts in full neither loses nor
    duplicates a slot: the slot indices the send queue owns afterwards are
    a permutation of those before, so distinct indices stay distinct; and
    the receive queue and the transport are left alone. *)
Theorem post_send_keeps_slots (H : Headers) (mem : Z -> Byte.byte)
  (qp qp' : virtio_rdma_qp) (wr bad0 : list ibv_send_wr) :
  post_send_loop mem qp wr = Loop_done qp' ->
  qp_after (virtio_rdma_post_send mem qp wr bad0) = qp'
  /\ Permutation (owned_indices (sq qp')) (owned_indices (sq qp))
  /\ (NoDup (owned_indices (sq qp)) -> NoDup (owned_indices (sq qp')))
  /\ rq qp' = rq qp
  /\ qp_type qp' = qp_type qp.
Proof.
  intros Hloop. destruct (post_send_loop_owned mem wr qp qp' Hloop) as [Hp [Hr Ht]].
  unfold virtio_rdma_post_send. rewrite Hloop. cbn [qp_after].
  split; [reflexivity|]. split; [exact Hp|]. split; [|now split].
  intros Hnd. apply (Permutation_NoDup (Permutation_sym Hp) Hnd).
Qed.

(** Two sends on a queue of depth 2 after the backend has returned an
    earlier one. *)
Lemma post_send_keeps_slots_witness :
  qp_after (@virtio_rdma_post_send sample_headers sample_mem
              (after_backend 1
                 (qp_after (@virtio_rdma_post_send sample_headers sample_mem
                              (sample_qp 2 2 1 true) [send_wr 1] [])))
              [send_wr 2; send_wr 3] [])
  = loop_qp (@post_send_loop sample_headers sample_mem
               (after_backend 1
                  (qp_after (@virtio_rdma_post_send sample_headers sample_mem
                               (sample_qp 2 2 1 true) [send_wr 1] [])))
               [send_wr 2; send_wr 3])
  /\ Permutation [1; 0]%nat [1; 0]%nat
  /\ (NoDup [1; 0]%nat -> NoDup [1; 0]%nat)
  /\ rq (loop_qp (@post_send_loop sample_headers sample_mem
               (after_backend 1
                  (qp_after (@virtio_rdma_post_send sample_headers sample_mem
                               (sample_qp 2 2 1 true) [send_wr 1] [])))
               [send_wr 2; send_wr 3]))
     = rq (sample_qp 2 2 1 true)
  /\ qp_type (loop_qp (@post_send_loop sample_headers sample_mem
               (after_backend 1
                  (qp_after (@virtio_rdma_post_send sample_headers sample_mem
                               (sample_qp 2 2 1 true) [send_wr 1] [])))
               [send_wr 2; send_wr 3])) = 2.
Proof.
  exact (post_send_keeps_slots sample_headers sample_mem
           (after_backend 1
              (qp_after (@virtio_rdma_post_send sample_headers sample_mem
                           (sample_qp 2 2 1 true) [send_wr 1] [])))
           (loop_qp (@post_send_loop sample_headers sample_mem
               (after_backend 1
                  (qp_after (@virtio_rdma_post_send sample_headers sample_mem
                               (sample_qp 2 2 1 true) [send_wr 1] [])))
               [send_wr 2; send_wr 3]))
           [send_wr 2; send_wr 3] [] eq_refl).
Defined.

(* ------------------------------------------------------------------ *)
(** ** Flag words *)

Lemma two_bits_not_single (a b : Z) :
  single_bit a -> single_bit b -> a <> b -> ~ single_bit (u8 (Z.lor a b)).
Proof.
  unfold single_bit. cbn [In]. intros Ha Hb Hne.
  repeat match goal with
         | Hd : _ \/ _ |- _ => destruct Hd as [Hd|Hd]
         end; try contradiction; subst; try congruence;
    vm_compute; intros Hc;
    repeat match goal with
           | Hd : _ \/ _ |- _ => destruct Hd as [Hd|Hd]
           end; try contradiction; discriminate.
Qed.

Lemma zero_not_single : ~ single_bit (u8 0).
Proof.
  unfold single_bit. vm_compute. intros Hc.
  repeat match goal with
         | Hd : _ \/ _ |- _ => destruct Hd as [Hd|Hd]
         end; try contradiction; discriminate.
Qed.

Lemma switch_u8_flag_word (cases : list (Z * Z)) (x : Z) :
  Forall single_bit (labels cases) -> ~ single_bit (u8 x) ->
  switch_u8 cases (u8 x) = sentinel.
Proof.
  intros Hbits Hx. apply switch_u8_unmapped. intros Hin. apply Hx.
  rewrite Forall_forall in Hbits. now apply Hbits.
Qed.

(** X11: the two flag translations look the whole flags word up in their
    switch.  When the case labels are single bits, a word with no flag
    set and a word with two different flags set are in no case, and both
    functions give the sentinel 255 for them: only a word of exactly one
    flag is translated. *)
Theorem flag_words_outside_the_switch (H : Headers) :
  Forall single_bit (labels virtio_send_flags_cases) ->
  Forall single_bit (labels ib_wc_flags_cases) ->
  to_virtio_send_flags 0 = 255
  /\ to_ib_wc_flags 0 = 255
  /\ (forall a b, In a (labels virtio_send_flags_cases) ->
                  In b (labels virtio_send_flags_cases) -> a <> b ->
                  to_virtio_send_flags (Z.lor a b) = 255)
  /\ (forall a b, In a (labels ib_wc_flags_cases) ->
                  In b (labels ib_wc_flags_cases) -> a <> b ->
                  to_ib_wc_flags (Z.lor a b) = 255).
Proof.
  intros Hs Hw. rewrite <- sentinel_255.
  unfold to_virtio_send_flags, to_ib_wc_flags.
  split; [|split; [|split]].
  - apply switch_u8_flag_word; [exact Hs | exact zero_not_single].
  - apply switch_u8_flag_word; [exact Hw | exact zero_not_single].
  - intros a b Ha Hb Hne. apply switch_u8_flag_word; [exact Hs|].
    rewrite Forall_forall in Hs. apply two_bits_not_single; auto.
  - intros a b Ha Hb Hne. apply switch_u8_flag_word; [exact Hw|].
    rewrite Forall_forall in Hw. apply two_bits_not_single; auto.
Qed.

(** With the sample constants: a signaled inline send (flags 2 | 8) and a
    completion with both flags (1 | 2) give 255. *)
Lemma flag_words_outside_the_switch_witness :
  @to_virtio_send_flags sample_headers 0 = 255
  /\ @to_ib_wc_flags sample_headers 0 = 255
  /\ @to_virtio_send_flags sample_headers (Z.lor 2 8) = 255
  /\ @to_ib_wc_flags sample_headers (Z.lor 1 2) = 255.
Proof.
  assert (Hs : Forall single_bit (labels (@virtio_send_flags_cases sample_headers))).
  { unfold single_bit. repeat constructor; simpl; tauto. }
  assert (Hw : Forall single_bit (labels (@ib_wc_flags_cases sample_headers))).
  { unfold single_bit. repeat constructor; simpl; tauto. }
  destruct (flag_words_outside_the_switch sample_headers Hs Hw)
    as [H0 [H1 [H2 H3]]].
  split; [exact H0|]. split; [exact H1|]. split.
  - apply H2; simpl; try tauto. discriminate.
  - apply H3; simpl; try tauto. discriminate.
Defined.

(* ------------------------------------------------------------------ *)
(** ** Fresh queue pairs *)

(** X12: a queue pair [virtio_rdma_create_qp] returns has every slot of
    both pools on its free list, numbered from 0 without repetition, each
    of the size of the header plus the negotiated number of descriptors,
    and a doorbell in both directions exactly when the response gave a
    notifier size.  Its first [virtio_rdma_post_recv] accepts a batch up
    to the receive depth of the response and answers a longer one with
    [-ENOMEM] at the first request beyond the depth. *)
Theorem create_qp_then_post_recv (H : Headers) (env : create_qp_env)
  (qp : virtio_rdma_qp) (wr bad0 : list ibv_recv_wr) :
  virtio_rdma_create_qp env = Some qp ->
  owned_indices (sq qp) = seq 0 (resp_num_sqe env)
  /\ owned_indices (rq qp) = seq 0 (resp_num_rqe env)
  /\ free_count (sq qp) = resp_num_sqe env
  /\ free_count (rq qp) = resp_num_rqe env
  /\ Forall (fun e => len e = sizeof_sq_req + attr_max_send_sge env * sizeof_sge)
       (flist (sq qp))
  /\ Forall (fun e => len e = sizeof_rq_req + attr_max_recv_sge env * sizeof_sge)
       (flist (rq qp))
  /\ doorbell (sq qp) = negb (resp_notifier_size env =? 0)
  /\ doorbell (rq qp) = negb (resp_notifier_size env =? 0)
  /\ ret (virtio_rdma_post_recv qp wr bad0)
     = (if (length wr <=? resp_num_rqe env)%nat then 0 else - ENOMEM)
  /\ bad_wr (virtio_rdma_post_recv qp wr bad0)
     = (if (length wr <=? resp_num_rqe env)%nat then bad0
        else skipn (resp_num_rqe env) wr).
Proof.
  unfold virtio_rdma_create_qp.
  destruct (negb (qp_cmd_rc env =? 0)); [discriminate|].
  destruct (sq_mmap_failed env); [discriminate|].
  destruct (negb (sq_init_pool_rc env =? 0)); [discriminate|].
  destruct (rq_mmap_failed env); [discriminate|].
  destruct (negb (rq_init_pool_rc env =? 0)); [discriminate|].
  intros Heq. inversion Heq; subst qp. clear Heq.
  assert (Hidx : forall (A : Type) (init : A) (db : bool) (n : nat) (size : Z),
             owned_indices (vring_init_pool init db n size) = seq 0 n).
  { intros A init db n size. unfold owned_indices. cbn [vring_init_pool flist avail used map].
    rewrite !app_nil_r, map_map. cbn [index]. apply map_id. }
  assert (Hlen : forall (A : Type) (init : A) (db : bool) (n : nat) (size : Z),
             Forall (fun e => len e = size) (flist (vring_init_pool init db n size))).
  { intros A init db n size. cbn [vring_init_pool flist].
    rewrite Forall_forall. intros e. rewrite in_map_iff.
    intros [i [<- _]]. reflexivity. }
  cbn [sq rq]. split; [apply Hidx|]. split; [apply Hidx|].
  split; [unfold free_count; cbn [vring_init_pool flist];
          now rewrite length_map, length_seq|].
  split; [unfold free_count; cbn [vring_init_pool flist];
          now rewrite length_map, length_seq|].
  split; [apply Hlen|]. split; [apply Hlen|].
  split; [reflexivity|]. split; [reflexivity|].
  match goal with |- context [virtio_rdma_post_recv ?q wr bad0] =>
    destruct (post_recv_loop_spec wr q) as [qp' [pub [Hloop _]]];
    unfold virtio_rdma_post_recv; rewrite Hloop end.
  unfold takeable. cbn [rq vring_init_pool flist used length].
  rewrite length_map, length_seq, Nat.add_0_r.
  destruct (length wr <=? resp_num_rqe env)%nat; now split.
Qed.

(** A reliable-connection queue pair of depth 2 and three receives. *)
Lemma create_qp_then_post_recv_witness :
  owned_indices (sq (sample_qp 2 2 1 true)) = seq 0 2
  /\ owned_indices (rq (sample_qp 2 2 1 true)) = seq 0 2
  /\ free_count (sq (sample_qp 2 2 1 true)) = 2%nat
  /\ free_count (rq (sample_qp 2 2 1 true)) = 2%nat
  /\ Forall (fun e => len e = 48 + 1 * 16) (flist (sq (sample_qp 2 2 1 true)))
  /\ Forall (fun e => len e = 16 + 1 * 16) (flist (rq (sample_qp 2 2 1 true)))
  /\ doorbell (sq (sample_qp 2 2 1 true)) = negb (4 =? 0)
  /\ doorbell (rq (sample_qp 2 2 1 true)) = negb (4 =? 0)
  /\ ret (@virtio_rdma_post_recv sample_headers (sample_qp 2 2 1 true)
            [recv_wr 1; recv_wr 2; recv_wr 3] [])
     = - 12
  /\ bad_wr (@virtio_rdma_post_recv sample_headers (sample_qp 2 2 1 true)
               [recv_wr 1; recv_wr 2; recv_wr 3] [])
     = [recv_wr 3].
Proof.
  exact (create_qp_then_post_recv sample_headers (sample_qp_env 2 2 1 true)
           (sample_qp 2 2 1 true) [recv_wr 1; recv_wr 2; recv_wr 3] [] eq_refl).
Defined.

(* ------------------------------------------------------------------ *)
(** ** Creation and destruction *)

(** The trace of a successful [virtio_rdma_create_qp]. *)
Lemma create_qp_effects_success (H : Headers) (env : create_qp_env)
  (qp : virtio_rdma_qp) :
  virtio_rdma_create_qp env = Some qp ->
  create_qp_effects env
  = [Res_calloc; Res_kernel_create; Res_mmap Sq_buf;
     Res_alloc_pool_table Sq_buf; Res_mmap Rq_buf;
     Res_alloc_pool_table Rq_buf].
Proof.
  unfold virtio_rdma_create_qp, create_qp_effects.
  destruct (negb (qp_cmd_rc env =? 0)); [discriminate|].
  destruct (sq_mmap_failed env); [discriminate|].
  destruct (negb (sq_init_pool_rc env =? 0)); [discriminate|].
  destruct (rq_mmap_failed env); [discriminate|].
  destruct (negb (rq_init_pool_rc env =? 0)); [discriminate|].
  reflexivity.
Qed.

(** X13: when [virtio_rdma_create_qp] fails, whatever the step that
    fails, the object memory is freed, the kernel object (if the create
    command made one) is destroyed, and every region that was mapped is
    unmapped once; no pool table is freed.  So on the two exits taken
    after the send pool was built (the receive region cannot be mapped,
    or the receive pool cannot be built) the send pool table stays
    allocated; on the earlier exits none was allocated.  When it succeeds
    it has mapped both regions and built both pools, in this order, and
    released nothing. *)
Theorem create_qp_failure_paths (H : Headers) (env : create_qp_env) :
  match virtio_rdma_create_qp env with
  | None =>
      balanced (create_qp_effects env)
      /\ (forall r,
            occurrences (Res_free_pool_table r) (create_qp_effects env)
            = 0%nat)
      /\ occurrences (Res_alloc_pool_table Rq_buf) (create_qp_effects env)
         = 0%nat
      /\ occurrences (Res_alloc_pool_table Sq_buf) (create_qp_effects env)
         = (if (qp_cmd_rc env =? 0) && negb (sq_mmap_failed env)
               && (sq_init_pool_rc env =? 0)
            then 1%nat else 0%nat)
  | Some _ =>
      create_qp_effects env
      = [Res_calloc; Res_kernel_create; Res_mmap Sq_buf;
         Res_alloc_pool_table Sq_buf; Res_mmap Rq_buf;
         Res_alloc_pool_table Rq_buf]
  end.
Proof.
  unfold virtio_rdma_create_qp, create_qp_effects.
  destruct (qp_cmd_rc env =? 0); cbn [negb andb]; [|trace_cases].
  destruct (sq_mmap_failed env); cbn [negb andb]; [trace_cases|].
  destruct (sq_init_pool_rc env =? 0); cbn [negb]; [|trace_cases].
  destruct (rq_mmap_failed env); [trace_cases|].
  destruct (negb (rq_init_pool_rc env =? 0)); [trace_cases|].
  reflexivity.
Qed.

(** The receive pool cannot be built: both regions are unmapped again,
    and the send pool table, built before, is not freed. *)
Example create_qp_fails_last :
  create_qp_effects
    {| attr_qp_type := 2; attr_max_send_sge := 1; attr_max_recv_sge := 1;
       qp_cmd_rc := 0; resp_num_sqe := 2; resp_num_rqe := 2; resp_qpn := 7;
       resp_notifier_size := 0; sq_mmap_failed := false; sq_init_pool_rc := 0;
       rq_mmap_failed := false; rq_init_pool_rc := 12 |}
  = [Res_calloc; Res_kernel_create; Res_mmap Sq_buf;
     Res_alloc_pool_table Sq_buf; Res_mmap Rq_buf;
     Res_munmap Rq_buf; Res_munmap Sq_buf; Res_kernel_destroy; Res_free].
Proof. reflexivity. Qed.

(** X14: [virtio_rdma_destroy_qp] returns the code of the destroy
    command.  When the command is refused it releases nothing: no region
    is unmapped and nothing is freed.  When it is accepted, on a queue
    pair that [virtio_rdma_create_qp] returned, the creation and the
    destruction together are balanced and each pool table is freed
    once. *)
Theorem destroy_qp_releases (H : Headers) (env : create_qp_env) (rc : Z) :
  fst (virtio_rdma_destroy_qp rc true true) = rc
  /\ match virtio_rdma_create_qp env with
     | None => True
     | Some _ =>
         if rc =? 0 then
           balanced (create_qp_effects env
                     ++ snd (virtio_rdma_destroy_qp rc true true))
           /\ occurrences (Res_free_pool_table Sq_buf)
                (snd (virtio_rdma_destroy_qp rc true true)) = 1%nat
           /\ occurrences (Res_free_pool_table Rq_buf)
                (snd (virtio_rdma_destroy_qp rc true true)) = 1%nat
         else
           snd (virtio_rdma_destroy_qp rc true true) = [Res_kernel_destroy]
     end.
Proof.
  split.
  - unfold virtio_rdma_destroy_qp. destruct (Z.eqb_spec rc 0) as [->|Hne]; reflexivity.
  - destruct (virtio_rdma_create_qp env) as [qp|] eqn:Hc; [|exact I].
    rewrite (create_qp_effects_success H env qp Hc).
    unfold virtio_rdma_destroy_qp.
    destruct (rc =? 0); cbn [negb]; [trace_cases | reflexivity].
Qed.


(* ------------------------------------------------------------------ *)
(** ** The firmware version *)

Lemma land_ffff (x : Z) : Z.land x 0xffff = x mod 2 ^ 16.
Proof. change 0xffff with (Z.ones 16). apply Z.land_ones. lia. Qed.

(** X16: the three fields [virtio_rdma_query_device] prints are 16-bit
    values, and together they are the low 48 bits of the firmware version
    of the response, major part first; the 16 bits above them are
    dropped. *)
Theorem fw_ver_fields (raw_fw_ver : Z) :
  0 <= fst (fst (fw_ver_parts raw_fw_ver)) < 65536
  /\ 0 <= snd (fst (fw_ver_parts raw_fw_ver)) < 65536
  /\ 0 <= snd (fw_ver_parts raw_fw_ver) < 65536
  /\ fst (fst (fw_ver_parts raw_fw_ver)) * 2 ^ 32
     + snd (fst (fw_ver_parts raw_fw_ver)) * 2 ^ 16
     + snd (fw_ver_parts raw_fw_ver)
     = raw_fw_ver mod 2 ^ 48.
Proof.
  unfold fw_ver_parts. cbn [fst snd]. rewrite !land_ffff.
  rewrite !Z.shiftr_div_pow2 by lia.
  split; [apply Z.mod_pos_bound; lia|].
  split; [apply Z.mod_pos_bound; lia|].
  split; [apply Z.mod_pos_bound; lia|].
  change (2 ^ 48) with (2 ^ 16 * 2 ^ 32).
  rewrite Z.rem_mul_r by lia.
  change (2 ^ 32) with (2 ^ 16 * 2 ^ 16) at 3.
  rewrite Z.rem_mul_r by lia.
  rewrite Z.div_div by lia.
  change (2 ^ 16 * 2 ^ 16) with (2 ^ 32).
  change (2 ^ 32) with 4294967296. change (2 ^ 16) with 65536. lia.
Qed.

Lemma string_length_append (a b : String.string) :
  String.length (String.append a b) = (String.length a + String.length b)%nat.
Proof. induction a as [|c a IH]; simpl; [reflexivity | now rewrite IH]. Qed.

Lemma substring_whole (s : String.string) (n : nat) :
  (String.length s <= n)%nat -> String.substring 0 n s = s.
Proof.
  revert n. induction s as [|c s IH]; intros n Hn.
  - now destruct n.
  - destruct n as [|n]; simpl in *; [lia|]. rewrite IH; [reflexivity | lia].
Qed.

Lemma print_digits_length (fuel k : nat) (x : Z) :
  0 <= x < 10 ^ Z.of_nat (S k) ->
  (String.length (print_digits fuel x) <= S k)%nat.
Proof.
  revert k x. induction fuel as [|fuel IH]; intros k x Hx; cbn [print_digits].
  - simpl. lia.
  - destruct (Z.ltb_spec x 10) as [Hlt|Hge].
    + simpl. lia.
    + rewrite string_length_append. cbn [String.length].
      destruct k as [|k].
      * change (10 ^ Z.of_nat 1) with 10 in Hx. lia.
      * assert (Hq : 0 <= x / 10 < 10 ^ Z.of_nat (S k)).
        { rewrite Nat2Z.inj_succ, Z.pow_succ_r in Hx by lia.
          split; [apply Z.div_pos; lia|].
          apply Z.div_lt_upper_bound; lia. }
        pose proof (IH k (x / 10) Hq). lia.
Qed.

Lemma print_d_16 (x : Z) :
  0 <= x < 65536 -> (String.length (print_d x) <= 5)%nat.
Proof.
  intros Hx. apply (print_digits_length 10 4 x).
  change (10 ^ Z.of_nat 5) with 100000. lia.
Qed.

(** X17: [virtio_rdma_query_device] passes a failure of the command on
    and leaves the version string as it was.  On success it returns 0 and
    stores major, minor and sub-minor in decimal with dots between them;
    the text has at most 17 characters, so a field of 18 bytes or more
    holds it whole. *)
Theorem query_device_fw_ver (size : nat) (ret raw_fw_ver : Z)
  (fw_ver : String.string) :
  (ret <> 0 ->
   virtio_rdma_query_device size ret raw_fw_ver fw_ver = (ret, fw_ver))
  /\ ((18 <= size)%nat ->
      virtio_rdma_query_device size 0 raw_fw_ver fw_ver
      = (0, String.append (print_d (fst (fst (fw_ver_parts raw_fw_ver))))
              (String.append dot
                 (String.append (print_d (snd (fst (fw_ver_parts raw_fw_ver))))
                    (String.append dot
                       (print_d (snd (fw_ver_parts raw_fw_ver)))))))
      /\ (String.length (snd (virtio_rdma_query_device size 0 raw_fw_ver fw_ver))
          <= 17)%nat).
Proof.
  split.
  - intros Hne. unfold virtio_rdma_query_device.
    destruct (Z.eqb_spec ret 0); [contradiction | reflexivity].
  - intros Hsize. unfold virtio_rdma_query_device. cbn [Z.eqb negb].
    destruct (fw_ver_fields raw_fw_ver) as [Ha [Hb [Hc _]]].
    destruct (fw_ver_parts raw_fw_ver) as [[a b] c]. cbn [fst snd] in *.
    pose proof (print_d_16 a Ha) as La. pose proof (print_d_16 b Hb) as Lb.
    pose proof (print_d_16 c Hc) as Lc.
    assert (Hlen : (String.length
                      (String.append (print_d a)
                         (String.append dot
                            (String.append (print_d b)
                               (String.append dot (print_d c))))) <= 17)%nat).
    { rewrite !string_length_append. cbn [dot String.length]. lia. }
    unfold snprintf_fw_ver. rewrite substring_whole by lia.
    split; [reflexivity | exact Hlen].
Qed.

(** Firmware version 1.2.3 with noise in the top 16 bits; version 1.12.3
    prints as the characters 49 46 49 50 46 51; the longest text. *)
Example query_device_sample :
  fw_ver_parts (0xabcd000100020003) = (1, 2, 3)
  /\ map Ascii.nat_of_ascii
       (String.list_ascii_of_string
          (snd (virtio_rdma_query_device 64 0 0xabcd0001000c0003
                  String.EmptyString)))
     = [49; 46; 49; 50; 46; 51]%nat
  /\ String.length (snd (virtio_rdma_query_device 64 0 0xffffffffffffffff
                           String.EmptyString)) = 17%nat.
Proof. repeat split; reflexivity. Qed.

(* ------------------------------------------------------------------ *)
(** ** Outcomes of posting sends *)

Section SendOutcomes.
Context {H : Headers}.
Variable mem : Z -> Byte.byte.

(** One iteration on an unreliable-datagram queue pair. *)
Lemma post_send_one_ud (qp : virtio_rdma_qp) (w : ibv_send_wr) :
  qp_type qp = IBV_QPT_UD ->
  exists q,
    post_send_one mem qp w
    = match flist (sq qp) ++ used (sq qp) with
      | [] => Bail (- ENOMEM) q
      | _ :: _ => Published q
      end
    /\ qp_type q = qp_type qp
    /\ doorbell (sq q) = doorbell (sq qp)
    /\ match flist (sq qp) ++ used (sq qp) with
       | [] => avail (sq q) = avail (sq qp) /\ takeable (sq q) = 0%nat
       | _ :: rest =>
           takeable (sq q) = length rest
           /\ exists e n, avail (sq q) = avail (sq qp) ++ [(e, n)]
                          /\ sq_wr_id (buf e) = swr_id w
       end.
Proof.
  intros Hud. unfold post_send_one. rewrite reclaim_spec.
  unfold vring_flist_pop. cbn [flist avail used doorbell].
  destruct (flist (sq qp) ++ used (sq qp)) as [|e rest] eqn:Hl.
  - eexists. split; [reflexivity|]. cbn [sq set_sq qp_type avail doorbell].
    unfold takeable. cbn [flist used length]. now repeat split.
  - cbv zeta. unfold resolve_address. rewrite (proj2 (Z.eqb_eq _ _) Hud).
    match goal with |- context [fill_payload ?m ?w0 ?r ?l] =>
      destruct (fill_payload m w0 r l) as [req' n] eqn:Hfill end.
    eexists. split; [reflexivity|]. cbn [sq set_sq qp_type avail doorbell].
    unfold takeable. cbn [flist used length]. rewrite Nat.add_0_r.
    repeat split. eexists; eexists. split; [reflexivity|].
    cbn [buf set_buf].
    destruct (fill_payload_fields mem w _ req' _ n Hfill) as [-> _]. reflexivity.
Qed.

Lemma post_send_loop_ud (wr : list ibv_send_wr) (qp : virtio_rdma_qp) :
  qp_type qp = IBV_QPT_UD ->
  exists qp' pub,
    post_send_loop mem qp wr
    = (if (length wr <=? takeable (sq qp))%nat then Loop_done qp'
       else Loop_bail (- ENOMEM) (skipn (takeable (sq qp)) wr) qp')
    /\ avail (sq qp') = avail (sq qp) ++ pub
    /\ published_ids pub = map swr_id (firstn (takeable (sq qp)) wr)
    /\ doorbell (sq qp') = doorbell (sq qp).
Proof.
  revert qp. induction wr as [|w next IH]; intros qp Hud.
  - exists qp, []. simpl. rewrite app_nil_r, firstn_nil. now repeat split.
  - cbn [post_send_loop].
    destruct (post_send_one_ud qp w Hud) as [q [Hone [Ht [Hdb Hrest]]]].
    rewrite Hone. unfold takeable at 1 2 3. rewrite <- length_app.
    destruct (flist (sq qp) ++ used (sq qp)) as [|e rest].
    + destruct Hrest as [Hav _]. exists q, []. simpl.
      rewrite app_nil_r. now repeat split.
    + destruct Hrest as [Htk [e' [n [Hav Hid]]]].
      destruct (IH q) as [qp' [pub [Hloop [Hav' [Hids Hdb']]]]]; [congruence|].
      rewrite Htk in Hloop, Hids.
      exists qp', ((e', n) :: pub). split; [|split; [|split]].
      * cbn [length skipn Nat.leb]. exact Hloop.
      * rewrite Hav', Hav, <- app_assoc. reflexivity.
      * cbn [length firstn map]. unfold published_ids in *.
        cbn [map fst]. now rewrite Hid, Hids.
      * congruence.
Qed.

(** The return code of a call that stopped is one of the three the
    function assigns. *)
Lemma post_send_loop_rc (wr wr' : list ibv_send_wr) (qp qp' : virtio_rdma_qp)
  (rc : Z) :
  post_send_loop mem qp wr = Loop_bail rc wr' qp' ->
  rc = - ENOMEM \/ rc = - EOPNOTSUPP \/ rc = - EINVAL.
Proof.
  intros Hloop.
  destruct (post_send_loop_bail mem wr wr' qp qp' rc Hloop)
    as [pre [w [rest [qp1 [_ [_ [_ Hone]]]]]]].
  pose proof (post_send_one_total mem qp1 w) as Ht. rewrite Hone in Ht.
  destruct Ht as [[_ [-> _]]|[_ [[->| ->] _]]]; auto.
Qed.

End SendOutcomes.

(** X18: on an unreliable-datagram queue pair [virtio_rdma_post_send]
    turns no request down for its opcode or addressing: it accepts as many
    requests as it can take entries (free or returned).  A batch within
    that number returns 0 with [*bad_wr] cleared and one notification; a
    longer one returns [-ENOMEM] with [*bad_wr] at the first request
    beyond it and no notification; the accepted requests are in the ring,
    in order. *)
Theorem post_send_capacity_ud (H : Headers) (mem : Z -> Byte.byte)
  (qp : virtio_rdma_qp) (wr bad0 : list ibv_send_wr) :
  qp_type qp = IBV_QPT_UD ->
  ret (virtio_rdma_post_send mem qp wr bad0)
  = (if (length wr <=? takeable (sq qp))%nat then 0 else - ENOMEM)
  /\ bad_wr (virtio_rdma_post_send mem qp wr bad0)
     = (if (length wr <=? takeable (sq qp))%nat then []
        else skipn (takeable (sq qp)) wr)
  /\ events (virtio_rdma_post_send mem qp wr bad0)
     = (if (length wr <=? takeable (sq qp))%nat then
          [if doorbell (sq qp) then Ev_vring_notify true
           else Ev_slow_doorbell true]
        else [])
  /\ exists pub,
       avail (sq (qp_after (virtio_rdma_post_send mem qp wr bad0)))
       = avail (sq qp) ++ pub
       /\ published_ids pub = map swr_id (firstn (takeable (sq qp)) wr).
Proof.
  intros Hud.
  destruct (post_send_loop_ud mem wr qp Hud) as [qp' [pub [Hloop [Hav [Hids Hdb]]]]].
  unfold virtio_rdma_post_send. rewrite Hloop.
  destruct (length wr <=? takeable (sq qp))%nat; cbn [ret bad_wr events qp_after].
  - rewrite Hdb. repeat split. now exists pub.
  - repeat split. now exists pub.
Qed.

(** An RDMA write, an atomic request and a send on an unreliable-datagram
    queue pair of depth 2: the first two are accepted. *)
Lemma post_send_capacity_ud_witness :
  ret (@virtio_rdma_post_send sample_headers sample_mem (sample_qp 4 2 1 false)
         [rdma_write_wr; atomic_wr; send_wr 3] [send_wr 9])
  = - 12
  /\ bad_wr (@virtio_rdma_post_send sample_headers sample_mem (sample_qp 4 2 1 false)
         [rdma_write_wr; atomic_wr; send_wr 3] [send_wr 9])
     = [send_wr 3]
  /\ events (@virtio_rdma_post_send sample_headers sample_mem (sample_qp 4 2 1 false)
         [rdma_write_wr; atomic_wr; send_wr 3] [send_wr 9])
     = []
  /\ exists pub,
       avail (sq (qp_after (@virtio_rdma_post_send sample_headers sample_mem
                              (sample_qp 4 2 1 false)
                              [rdma_write_wr; atomic_wr; send_wr 3] [send_wr 9])))
       = [] ++ pub
       /\ published_ids pub = [1; 1].
Proof.
  exact (post_send_capacity_ud sample_headers sample_mem (sample_qp 4 2 1 false)
           [rdma_write_wr; atomic_wr; send_wr 3] [send_wr 9] eq_refl).
Defined.

(** X19: the outcomes of [virtio_rdma_post_send] hang together.  The
    return value is 0, [-ENOMEM], [-EOPNOTSUPP] or [-EINVAL]; with errno
    values that are not 0, it is 0 exactly when [*bad_wr] is [NULL], and
    exactly then the backend is notified. *)
Theorem post_send_outcomes (H : Headers) (mem : Z -> Byte.byte)
  (qp : virtio_rdma_qp) (wr bad0 : list ibv_send_wr) :
  0 < ENOMEM -> 0 < EOPNOTSUPP -> 0 < EINVAL ->
  (ret (virtio_rdma_post_send mem qp wr bad0) = 0
   \/ ret (virtio_rdma_post_send mem qp wr bad0) = - ENOMEM
   \/ ret (virtio_rdma_post_send mem qp wr bad0) = - EOPNOTSUPP
   \/ ret (virtio_rdma_post_send mem qp wr bad0) = - EINVAL)
  /\ (ret (virtio_rdma_post_send mem qp wr bad0) = 0
      <-> bad_wr (virtio_rdma_post_send mem qp wr bad0) = [])
  /\ (ret (virtio_rdma_post_send mem qp wr bad0) = 0
      <-> length (events (virtio_rdma_post_send mem qp wr bad0)) = 1%nat)
  /\ (ret (virtio_rdma_post_send mem qp wr bad0) <> 0
      <-> events (virtio_rdma_post_send mem qp wr bad0) = []).
Proof.
  intros He1 He2 He3. unfold virtio_rdma_post_send.
  destruct (post_send_loop mem qp wr) as [q|rc wr' q] eqn:Hloop;
    cbn [ret bad_wr events length].
  - split; [now left|]. split; [tauto|]. split; [tauto|].
    split; [intros Hc; now contradiction Hc | discriminate].
  - pose proof (post_send_loop_rc mem wr wr' qp q rc Hloop) as Hrc.
    destruct (post_send_loop_bail mem wr wr' qp q rc Hloop)
      as [pre [w [rest [qp1 [_ [-> _]]]]]].
    assert (Hnz : rc <> 0) by (destruct Hrc as [->|[->| ->]]; lia).
    split; [now right|]. split; [split; [contradiction | discriminate]|].
    split; [split; [contradiction | discriminate]|].
    split; [reflexivity | intros _; exact Hnz].
Qed.

(** The four outcomes with the sample constants. *)
Lemma post_send_outcomes_witness :
  (ret (@virtio_rdma_post_send sample_headers sample_mem (sample_qp 2 1 1 true)
          [send_wr 1; atomic_wr] []) = 0
   \/ ret (@virtio_rdma_post_send sample_headers sample_mem (sample_qp 2 1 1 true)
          [send_wr 1; atomic_wr] []) = - 12
   \/ ret (@virtio_rdma_post_send sample_headers sample_mem (sample_qp 2 1 1 true)
          [send_wr 1; atomic_wr] []) = - 95
   \/ ret (@virtio_rdma_post_send sample_headers sample_mem (sample_qp 2 1 1 true)
          [send_wr 1; atomic_wr] []) = - 22)
  /\ (ret (@virtio_rdma_post_send sample_headers sample_mem (sample_qp 2 1 1 true)
          [send_wr 1; atomic_wr] []) = 0
      <-> bad_wr (@virtio_rdma_post_send sample_headers sample_mem
                    (sample_qp 2 1 1 true) [send_wr 1; atomic_wr] []) = [])
  /\ (ret (@virtio_rdma_post_send sample_headers sample_mem (sample_qp 2 1 1 true)
          [send_wr 1; atomic_wr] []) = 0
      <-> length (events (@virtio_rdma_post_send sample_headers sample_mem
                            (sample_qp 2 1 1 true) [send_wr 1; atomic_wr] []))
          = 1%nat)
  /\ (ret (@virtio_rdma_post_send sample_headers sample_mem (sample_qp 2 1 1 true)
          [send_wr 1; atomic_wr] []) <> 0
      <-> events (@virtio_rdma_post_send sample_headers sample_mem
                    (sample_qp 2 1 1 true) [send_wr 1; atomic_wr] []) = []).
Proof.
  apply (post_send_outcomes sample_headers sample_mem (sample_qp 2 1 1 true)
           [send_wr 1; atomic_wr] []); reflexivity.
Defined.

(* ------------------------------------------------------------------ *)
(** ** What [*bad_wr] reports *)

Section BadWr.
Context {H : Headers}.
Variable mem : Z -> Byte.byte.

(** Whether the switches reject a request, and with which code, does not
    depend on the record. *)
Lemma resolve_address_kind (t : Z) (w : ibv_send_wr)
  (req : virtio_rdma_sq_req) :
  match resolve_address t w req with
  | inr _ => addressable t w = true
  | inl rc => resolve_address t w zero_sq_req = inl rc
  end.
Proof.
  unfold addressable, resolve_address.
  destruct (t =? IBV_QPT_UD); [reflexivity|].
  destruct (t =? IBV_QPT_RC); [|reflexivity].
  destruct (rdma_opcode (swr_opcode w)); [reflexivity|].
  destruct (send_opcode (swr_opcode w)); reflexivity.
Qed.

(** Why an iteration left the loop. *)
Lemma post_send_one_bail_inv (qp qp' : virtio_rdma_qp) (w : ibv_send_wr) (rc : Z) :
  post_send_one mem qp w = Bail rc qp' ->
  avail (sq qp') = avail (sq qp)
  /\ ((takeable (sq qp) = 0%nat /\ rc = - ENOMEM)
      \/ ((0 < takeable (sq qp))%nat
          /\ resolve_address (qp_type qp) w zero_sq_req = inl rc)).
Proof.
  unfold post_send_one. rewrite reclaim_spec.
  unfold vring_flist_pop, takeable.
  rewrite <- (length_app (flist (sq qp)) (used (sq qp))).
  cbn [flist avail used doorbell].
  destruct (flist (sq qp) ++ used (sq qp)) as [|e fl].
  - intros Heq. inversion Heq; subst. cbn [sq set_sq avail length].
    split; [reflexivity|]. now left.
  - cbv zeta.
    pose proof (resolve_address_kind (qp_type qp) w (sq_header w (buf e))) as Hk.
    destruct (resolve_address (qp_type qp) w (sq_header w (buf e))) as [rc'|req1].
    + intros Heq. inversion Heq; subst. cbn [sq set_sq avail length].
      split; [reflexivity|]. right. split; [lia | exact Hk].
    + destruct (fill_payload mem w req1 (u32 (sizeof_sge * swr_num_sge w))).
      discriminate.
Qed.

(** What a published request says of the request and of the pool. *)
Lemma post_send_one_took (qp qp' : virtio_rdma_qp) (w : ibv_send_wr) :
  post_send_one mem qp w = Published qp' ->
  addressable (qp_type qp) w = true
  /\ S (takeable (sq qp')) = takeable (sq qp)
  /\ qp_type qp' = qp_type qp.
Proof.
  intros Hone.
  destruct (post_send_one_inv mem qp qp' w Hone)
    as [e [fl [req1 [req' [n [Hl [Hres [_ ->]]]]]]]].
  pose proof (resolve_address_kind (qp_type qp) w (sq_header w (buf e))) as Hk.
  rewrite Hres in Hk. split; [exact Hk|].
  unfold takeable. cbn [sq set_sq flist used length qp_type].
  rewrite <- (length_app (flist (sq qp)) (used (sq qp))), Hl.
  cbn [length]. split; [lia | reflexivity].
Qed.

Lemma post_send_loop_took (pre : list ibv_send_wr) (qp qp1 : virtio_rdma_qp) :
  post_send_loop mem qp pre = Loop_done qp1 ->
  Forall (fun w => addressable (qp_type qp) w = true) pre
  /\ (length pre + takeable (sq qp1))%nat = takeable (sq qp)
  /\ qp_type qp1 = qp_type qp.
Proof.
  revert qp. induction pre as [|w pre IH]; intros qp; cbn [post_send_loop].
  - intros Heq. inversion Heq; subst. split; [constructor | now split].
  - destruct (post_send_one mem qp w) as [q|rc q] eqn:Hone; [|discriminate].
    intros Hloop. destruct (IH q Hloop) as [Hall [Hlen Ht]].
    destruct (post_send_one_took qp q w Hone) as [Ha [Hs Ht1]].
    rewrite Ht1 in Hall. split; [now constructor|].
    split; [cbn [length]; lia | congruence].
Qed.

End BadWr.

(** C10: [virtio_rdma_post_send] writes [*bad_wr] on every call, whatever
    it held.  What it writes splits the batch: the requests before it were
    all let through by the switches, found an entry, and are in the ring
    in order; it is [NULL], with return value 0, when that is the whole
    batch, and that is the case whenever every request is let through and
    entries suffice; otherwise it starts at the request that failed:
    the one for which no entry was left ([-ENOMEM]) or which the switches
    reject (with their code).  [virtio_rdma_post_recv] leaves [*bad_wr] as
    it was when the batch fits the entries that can be taken, and
    otherwise sets it to the first request beyond them. *)
Theorem bad_wr_reports_first_unprocessed (H : Headers) (mem : Z -> Byte.byte)
  (qp : virtio_rdma_qp) (swr sbad : list ibv_send_wr)
  (rwr rbad : list ibv_recv_wr) :
  (exists pre pub,
     swr = pre ++ bad_wr (virtio_rdma_post_send mem qp swr sbad)
     /\ avail (sq (qp_after (virtio_rdma_post_send mem qp swr sbad)))
        = avail (sq qp) ++ pub
     /\ published_ids pub = map swr_id pre
     /\ Forall (fun w => addressable (qp_type qp) w = true) pre
     /\ (length pre <= takeable (sq qp))%nat
     /\ match bad_wr (virtio_rdma_post_send mem qp swr sbad) with
        | [] => ret (virtio_rdma_post_send mem qp swr sbad) = 0
        | w :: _ =>
            (length pre = takeable (sq qp)
             /\ ret (virtio_rdma_post_send mem qp swr sbad) = - ENOMEM)
            \/ ((length pre < takeable (sq qp))%nat
                /\ resolve_address (qp_type qp) w zero_sq_req
                   = inl (ret (virtio_rdma_post_send mem qp swr sbad)))
        end)
  /\ (forall sbad',
        bad_wr (virtio_rdma_post_send mem qp swr sbad')
        = bad_wr (virtio_rdma_post_send mem qp swr sbad))
  /\ (Forall (fun w => addressable (qp_type qp) w = true) swr ->
      (length swr <= takeable (sq qp))%nat ->
      bad_wr (virtio_rdma_post_send mem qp swr sbad) = [])
  /\ bad_wr (virtio_rdma_post_recv qp rwr rbad)
     = (if (length rwr <=? takeable (rq qp))%nat then rbad
        else skipn (takeable (rq qp)) rwr)
  /\ ret (virtio_rdma_post_recv qp rwr rbad)
     = (if (length rwr <=? takeable (rq qp))%nat then 0 else - ENOMEM)
  /\ exists pub,
       avail (rq (qp_after (virtio_rdma_post_recv qp rwr rbad)))
       = avail (rq qp) ++ pub
       /\ published_recv_ids pub = map rwr_id (firstn (takeable (rq qp)) rwr).
Proof.
  assert (Hsend : exists pre pub,
     swr = pre ++ bad_wr (virtio_rdma_post_send mem qp swr sbad)
     /\ avail (sq (qp_after (virtio_rdma_post_send mem qp swr sbad)))
        = avail (sq qp) ++ pub
     /\ published_ids pub = map swr_id pre
     /\ Forall (fun w => addressable (qp_type qp) w = true) pre
     /\ (length pre <= takeable (sq qp))%nat
     /\ match bad_wr (virtio_rdma_post_send mem qp swr sbad) with
        | [] => ret (virtio_rdma_post_send mem qp swr sbad) = 0
        | w :: _ =>
            (length pre = takeable (sq qp)
             /\ ret (virtio_rdma_post_send mem qp swr sbad) = - ENOMEM)
            \/ ((length pre < takeable (sq qp))%nat
                /\ resolve_address (qp_type qp) w zero_sq_req
                   = inl (ret (virtio_rdma_post_send mem qp swr sbad)))
        end).
  { unfold virtio_rdma_post_send.
    destruct (post_send_loop mem qp swr) as [q|rc wr' q] eqn:Hloop;
      cbn [ret bad_wr qp_after].
    - destruct (post_send_loop_done mem swr qp q Hloop) as [pub [Hav [Hids _]]].
      destruct (post_send_loop_took mem swr qp q Hloop) as [Hall [Hlen _]].
      exists swr, pub. rewrite app_nil_r. repeat split; auto. lia.
    - destruct (post_send_loop_bail mem swr wr' qp q rc Hloop)
        as [pre [w [rest [qp1 [Hsplit [Hw [Hpre Hone]]]]]]].
      destruct (post_send_loop_done mem pre qp qp1 Hpre) as [pub [Hav [Hids _]]].
      destruct (post_send_loop_took mem pre qp qp1 Hpre) as [Hall [Hlen Ht]].
      destruct (post_send_one_bail_inv mem qp1 q w rc Hone) as [Hav1 Hwhy].
      exists pre, pub. subst wr'. rewrite Ht in Hwhy.
      split; [exact Hsplit|]. split; [congruence|]. split; [exact Hids|].
      split; [exact Hall|]. split; [lia|].
      destruct Hwhy as [[Hz Hrc]|[Hpos Hres]].
      + left. split; [lia | exact Hrc].
      + right. split; [lia | exact Hres]. }
  split; [exact Hsend|]. split; [reflexivity|]. split.
  - intros Hall Hlen. destruct Hsend as [pre [pub [Hsplit [_ [_ [_ [Hle Hwhy]]]]]]].
    destruct (bad_wr (virtio_rdma_post_send mem qp swr sbad)) as [|w rest];
      [reflexivity|].
    exfalso. assert (Hl : length swr = (length pre + S (length rest))%nat).
    { rewrite Hsplit at 1. now rewrite length_app. }
    destruct Hwhy as [[Hfull _]|[_ Hres]]; [lia|].
    rewrite Forall_forall in Hall.
    assert (Hin : In w swr) by (rewrite Hsplit; apply in_or_app; right; now left).
    specialize (Hall w Hin). unfold addressable in Hall.
    rewrite Hres in Hall. discriminate.
  - destruct (post_recv_loop_spec rwr qp) as [qp' [pub [Hloop [Hav [Hids _]]]]].
    unfold virtio_rdma_post_recv. rewrite Hloop.
    destruct (length rwr <=? takeable (rq qp))%nat; cbn [ret bad_wr qp_after];
      repeat split; now exists pub.
Qed.

Lemma bad_wr_reports_first_unprocessed_witness :
  Forall (fun w => @addressable sample_headers 2 w = true)
    [send_wr 1; send_wr 2]
  /\ (length [send_wr 1; send_wr 2]
      <= takeable (sq (sample_qp 2 2 1 true)))%nat
  /\ bad_wr (@virtio_rdma_post_send sample_headers sample_mem
               (sample_qp 2 2 1 true) [send_wr 1; send_wr 2] [send_wr 9])
     = [].
Proof.
  assert (Hall : Forall (fun w => @addressable sample_headers 2 w = true)
                   [send_wr 1; send_wr 2])
    by (repeat constructor).
  assert (Hlen : (length [send_wr 1; send_wr 2]
                  <= takeable (sq (sample_qp 2 2 1 true)))%nat)
    by (vm_compute; lia).
  split; [exact Hall|]. split; [exact Hlen|].
  exact (proj1 (proj2 (proj2
           (bad_wr_reports_first_unprocessed sample_headers sample_mem
              (sample_qp 2 2 1 true) [send_wr 1; send_wr 2] [send_wr 9]
              [recv_wr 1] [recv_wr 9]))) Hall Hlen).
Defined.

(** The three ways a batch is cut short, on concrete queues: no entry
    left for the second send; an atomic request, which the switches
    reject, in second place; no entry left for the second receive. *)
Example bad_wr_at_the_failed_request :
  (let r := @virtio_rdma_post_send sample_headers sample_mem
              (sample_qp 2 1 1 true) [send_wr 1; send_wr 2; send_wr 3]
              [send_wr 9] in
   ret r = - 12 /\ bad_wr r = [send_wr 2; send_wr 3])
  /\ (let r := @virtio_rdma_post_send sample_headers sample_mem
                 (sample_qp 2 3 1 true) [send_wr 1; atomic_wr; send_wr 3]
                 [send_wr 9] in
      ret r = - 95 /\ bad_wr r = [atomic_wr; send_wr 3])
  /\ (let r := @virtio_rdma_post_recv sample_headers
                 (sample_qp 2 1 1 true) [recv_wr 1; recv_wr 2; recv_wr 3]
                 [recv_wr 9] in
      ret r = - 12 /\ bad_wr r = [recv_wr 2; recv_wr 3]).
Proof. repeat split; reflexivity. Qed.
